(** * GPyOpt.core.optimization: batch acquisition optimization

    A shallow embedding of [GPyOpt/core/optimization.py] and the properties
    of its batch strategies, single-point optimizers, Lipschitz estimator
    and local penalizer.

    Conventions of the embedding.
    - numpy's float64 is idealised by the real numbers [R]; NaN, infinities
      and rounding are outside the model.
    - A point (1-D array of length D) is a [list R]; a 2-D array is the list
      of its rows.  [np.vstack] promotes a 1-D operand to a single row, and
      the helper [reshape(x, D)] does the same for a single point, so a batch
      is carried as the list of its rows.  Shapes are taken to be conformant:
      broadcasting failures are not modelled.
    - Python exceptions are the values of [exn]; a computation that talks to
      the random generator or prints is a function of the [World].
    - The collaborators that live outside this source file (the samplers,
      scipy's SLSQP minimizer, the weighted k-means, the matrix functions and
      the surrogate constructor) are the fields of [Externals]. *)

From Stdlib Require Import String Reals Lra Lia Bool Arith ZArith List ListDec.
From Stdlib Require Import Permutation.
Import ListNotations.
Open Scope R_scope.

(** ** The standard normal distribution function, [scipy.stats.norm.cdf] *)

Definition gauss (t : R) : R := exp (- (t * t) / 2).

(** The density kernel is integrable on every interval. *)
Definition gauss_integrable (a b : R) : Riemann_integrable gauss a b.
Proof.
  assert (Hc : continuity gauss)
    by (apply derivable_continuous; unfold gauss; reg).
  destruct (Rle_dec a b) as [Hab | Hab].
  - apply continuity_implies_RiemannInt; [exact Hab | intros; apply Hc].
  - apply RiemannInt_P1, continuity_implies_RiemannInt;
      [lra | intros; apply Hc].
Qed.

(** The integral of the density kernel from 0 to [x] (signed). *)
Definition gauss_int (x : R) : R := RiemannInt (gauss_integrable 0 x).

(** Phi(x) = 1/2 + (1/sqrt(2 pi)) * integral_0^x exp(-t^2/2) dt. *)
Definition norm_cdf (x : R) : R := 1 / 2 + gauss_int x / sqrt (2 * PI).

(** ** Arrays, exceptions and the world *)

Definition point := list R.
Definition matrix := list (list R).
Definition bounds_t := list (R * R).

Inductive exn : Set :=
| UnboundLocalError
| ValueError
| IndexError
| TypeError
| LinAlgError.

Record World {RNG : Type} := mkWorld { rng : RNG; stdout : list string }.
Arguments World : clear implicits.
Arguments mkWorld {RNG} _ _.

Definition M (RNG A : Type) : Type := World RNG -> (exn + A) * World RNG.

Definition ret {RNG A} (a : A) : M RNG A := fun w => (inr a, w).

Definition raise {RNG A} (e : exn) : M RNG A := fun w => (inl e, w).

Definition lift {RNG A} (r : exn + A) : M RNG A := fun w => (r, w).

Definition bind {RNG A B} (m : M RNG A) (k : A -> M RNG B) : M RNG B :=
  fun w => match m w with
           | (inr a, w') => k a w'
           | (inl e, w') => (inl e, w')
           end.

(** Python 2's [print] statement: one more line on standard output. *)
Definition print {RNG} (s : string) : M RNG unit :=
  fun w => (inr tt, mkWorld (rng w) (stdout w ++ [s])).

(** A draw from the random generator. *)
Definition draw {RNG A} (f : RNG -> A * RNG) : M RNG A :=
  fun w => let (a, g) := f (rng w) in (inr a, mkWorld g (stdout w)).

Notation "x <- m ;; k" := (bind m (fun x => k))
  (at level 61, m at next level, right associativity).
Notation "m ;;; k" := (bind m (fun _ => k))
  (at level 61, right associativity).

(** Exceptions without effects. *)
Definition ebind {A B} (r : exn + A) (k : A -> exn + B) : exn + B :=
  match r with inl e => inl e | inr a => k a end.

(** ** The surrogate model, the acquisition and the collaborators *)

Record Kernel := mkKernel { K : list point -> matrix }.

(** The GP model object: observed inputs [X] (N x D), observed outputs [Y]
    (N x 1, a column), the kernel, [predict] returning the columns (mean,
    variance) and [predictive_gradients] returning one gradient row per
    point.  [copy()] of an immutable record is the record. *)
Record Model := mkModel {
  X : list point;
  Y : list R;
  kern : Kernel;
  predict : list point -> list R * list R;
  predictive_gradients : list point -> list (list R) * list (list R)
}.

Definition copy (model : Model) : Model := model.

(** An acquisition maps an array of M points to M scores (a column). *)
Definition Acquisition := list point -> list R.

(** The value of [scipy.optimize.minimize]: the fields [x] and [fun]. *)
Record OptimizeResult := mkRes { opt_x : point; opt_fun : R }.

(** What a constructed [GPyOpt.methods.BayesianOptimization] object holds
    for this file: the surrogate fitted to (X, Y) and the acquisition built
    against it. *)
Record BO := mkBO { bo_model : Model; bo_acquisition : Acquisition }.

Record Externals {RNG : Type} := mkExternals {
  (* util.general.samples_multidimensional_uniform(bounds, num_data) *)
  samples_multidimensional_uniform : bounds_t -> nat -> RNG -> list point * RNG;
  (* util.general.multigrid(bounds, Ngrid) *)
  multigrid : bounds_t -> nat -> list point;
  (* scipy.optimize.minimize(f, x0, method='SLSQP', bounds=bounds) on a
     total objective *)
  minimize : (point -> R) -> point -> bounds_t -> OptimizeResult;
  (* util.general.WKmeans(X, weights, n_clusters) *)
  WKmeans : list point -> list R -> nat -> M RNG (list point);
  (* scipy.linalg.sqrtm(np.linalg.inv(Sigma)).real *)
  sqrtm_inv : matrix -> exn + matrix;
  (* GPyOpt.methods.BayesianOptimization(f=0, bounds, X, Y, kernel,
     acquisition, acquisition_par): fits the surrogate *)
  BayesianOptimization :
    bounds_t -> list point -> list R -> Kernel -> string -> R -> M RNG BO
}.
Arguments Externals : clear implicits.
Arguments mkExternals {RNG} _ _ _ _ _ _.

(** ** numpy and builtin helpers *)

(** The scalar held by a one-element array. *)
Definition item (l : list R) : R := hd 0 l.

Definition neg (l : list R) : list R := map Ropp l.

(** [np.multiply] on two columns of the same length. *)
Definition multiply (a b : list R) : list R :=
  map (fun p => fst p * snd p) (combine a b).

Definition sum (l : list R) : R := fold_right Rplus 0 l.

(** [reduce(operator.mul, l, 1)]. *)
Definition prod (l : list R) : R := fold_left Rmult l 1.

(** [np.sign]. *)
Definition sign (v : R) : R :=
  if Rlt_dec 0 v then 1 else if Rlt_dec v 0 then -1 else 0.

(** Python's builtin [min] over the rows of a column: the first smallest
    entry, [ValueError] on an empty sequence.  [ndarray.min()] agrees. *)
Definition minimum (l : list R) : exn + R :=
  match l with
  | [] => inl ValueError
  | v :: l' => inr (fold_left (fun m u => if Rlt_dec u m then u else m) l' v)
  end.

(** [np.argmin]: the index of the first occurrence of the minimum;
    [ValueError] on an empty array. *)
Fixpoint argmin_from (best : R) (bi i : nat) (l : list R) : nat :=
  match l with
  | [] => bi
  | v :: l' =>
      if Rlt_dec v best then argmin_from v i (S i) l'
      else argmin_from best bi (S i) l'
  end.

Definition argmin (l : list R) : exn + nat :=
  match l with
  | [] => inl ValueError
  | v :: l' => inr (argmin_from v 0%nat 1%nat l')
  end.

(** Row indexing [a[i]]. *)
Definition getrow {A} (a : list A) (i : nat) : exn + A :=
  match nth_error a i with
  | Some r => inr r
  | None => inl IndexError
  end.

(** [np.sqrt(((x - x0)**2).sum(1))] for one row [x]. *)
Definition dist (x x0 : point) : R :=
  sqrt (sum (map (fun p => (fst p - snd p) * (fst p - snd p)) (combine x x0))).

(** A point lies in the box. *)
Definition in_bounds (bounds : bounds_t) (p : point) : Prop :=
  Forall2 (fun b v => fst b <= v <= snd b) bounds p.

(** [np.dot(A, v)] of a matrix and a column. *)
Definition dot (A : matrix) (v : list R) : list R :=
  map (fun row => sum (multiply row v)) A.

(** [np.delete(a, i, 0)]; an index past the end leaves the array as it is,
    as the numpy of this code base did. *)
Definition delete (i : nat) (a : list R) : list R :=
  firstn i a ++ skipn (S i) a.

(** [np.unique]: the sorted distinct labels. *)
Fixpoint insert_unique (k : Z) (l : list Z) : list Z :=
  match l with
  | [] => [k]
  | h :: t =>
      if Z.ltb k h then k :: l
      else if Z.eqb k h then l
      else h :: insert_unique k t
  end.

Definition unique (l : list Z) : list Z := fold_right insert_unique [] l.

(** Boolean-mask row selection [a[mask, :]]. *)
Definition select {A} (mask : list bool) (a : list A) : list A :=
  map snd (filter fst (combine mask a)).

(** Boolean-mask assignment [a[mask, :] = w]: the rows of [w] go, in order,
    to the selected rows; [ValueError] when the counts differ. *)
Fixpoint assign (mask : list bool) (a w : list R) : exn + list R :=
  match mask, a with
  | true :: mask', _ :: a' =>
      match w with
      | v :: w' => ebind (assign mask' a' w') (fun r => inr (v :: r))
      | [] => inl ValueError
      end
  | false :: mask', u :: a' =>
      ebind (assign mask' a' w) (fun r => inr (u :: r))
  | _, _ => match w with [] => inr a | _ :: _ => inl ValueError end
  end.

(** [np.vstack] of a sequence of rows; an empty sequence is refused. *)
Definition vstack (rows : list point) : exn + list point :=
  match rows with
  | [] => inl ValueError
  | _ :: _ => inr rows
  end.

(** ** The source file *)

Section Optimization.
Context {RNG : Type}.
Variable ext : Externals RNG.

(** *** estimate_L and estimate_Min *)

(** The nested function [df(x, model, alpha)] of [estimate_L]: minus the
    norm of the posterior-mean gradient, one entry per point. *)
Definition df (x : list point) (model : Model) (alpha : R) : list R :=
  let dmdx := fst (predictive_gradients model x) in
  let res := map (fun g => sqrt (sum (map (fun d => d * d) g))) dmdx in
  neg res.

Definition estimate_L (model : Model) (bounds : bounds_t) (alpha : R)
  : M RNG R :=
  samples <- draw (samples_multidimensional_uniform ext bounds 5) ;;
  let pred_samples := df samples model alpha in
  i <- lift (argmin pred_samples) ;;
  x0 <- lift (getrow samples i) ;;
  let minusL :=
    opt_fun (minimize ext (fun p => item (df [p] model alpha)) x0 bounds) in
  let L := - minusL in
  ret (if Rlt_dec L 0.1 then 100 else L).

Definition estimate_Min (model : Model) (bounds : bounds_t) (alpha : R)
  : exn + R :=
  minimum (Y model).

(** *** hammer_function *)

(** The local variables of [hammer_function], in the order of the source:
    [m], the floored [pred], [s], [r_x0] and [s_x0]; each is a 1 x 1 array
    when the model answers one prediction for the one point [x0]. *)
Definition hammer_m (x0 : point) (model : Model) : list R :=
  fst (predict model [x0]).

Definition hammer_pred (x0 : point) (model : Model) : list R :=
  map (fun v => if Rlt_dec v 1e-16 then 1e-16 else v)
      (snd (predict model [x0])).

Definition hammer_s (x0 : point) (model : Model) : list R :=
  map sqrt (hammer_pred x0 model).

Definition hammer_r_x0 (x0 : point) (L Min : R) (model : Model) : list R :=
  map (fun m => (m - Min) / L) (hammer_m x0 model).

Definition hammer_s_x0 (x0 : point) (L : R) (model : Model) : list R :=
  map (fun s => s / L) (hammer_s x0 model).

Definition hammer_function (x : list point) (x0 : point) (L Min : R)
    (model : Model) : list R :=
  let r_x0 := hammer_r_x0 x0 L Min model in
  let s_x0 := hammer_s_x0 x0 L model in
  map (fun xi => norm_cdf ((dist xi x0 - item r_x0) / item s_x0)) x.

(** *** penalized_acquisition *)

(** The loop [for i in range(X_batch.shape[0])]; dividing by an [L] that is
    [None] is a [TypeError]. *)
Fixpoint penalize (x : list point) (model : Model) (L Min : option R)
    (X_batch : list point) (fval : list R) : exn + list R :=
  match X_batch with
  | [] => inr fval
  | x0 :: rest =>
      match L, Min with
      | Some l, Some mn =>
          penalize x model L Min rest
                   (multiply fval (hammer_function x x0 l mn model))
      | _, _ => inl TypeError
      end
  end.

(** [X_batch != None] is the test "a batch was passed" (the scalar
    comparison of the numpy this code was written for); [sur_min] is the
    smallest entry of [-acquisition(model.X)]. *)
Definition penalized_acquisition (x : list point) (acquisition : Acquisition)
    (bounds : bounds_t) (model : Model) (X_batch : option (list point))
    (L Min : option R) : exn + list R :=
  ebind (minimum (neg (acquisition (X model)))) (fun sur_min =>
  let fval :=
    map (fun a => a - sign sur_min * Rabs sur_min) (neg (acquisition x)) in
  ebind (match X_batch with
         | None => inr fval
         | Some rows => penalize x model L Min rows fval
         end) (fun fval => inr (neg fval))).

(** [scipy.optimize.minimize] on an objective that may raise: SLSQP
    evaluates the objective at [x0] before it iterates, and an exception
    raised there reaches the caller. *)
Definition scipy_minimize (f : point -> exn + R) (x0 : point)
    (bounds : bounds_t) : exn + OptimizeResult :=
  match f x0 with
  | inl e => inl e
  | inr _ =>
      inr (minimize ext
             (fun p => match f p with inr v => v | inl _ => 0 end) x0 bounds)
  end.

(** The objective handed to the minimizer: [penalized_acquisition] at one
    point, with [args = (acquisition, bounds, model, X_batch, L, Min)]. *)
Definition objective (acquisition : Acquisition) (bounds : bounds_t)
    (model : Model) (X_batch : option (list point)) (L Min : option R)
    (p : point) : exn + R :=
  ebind (penalized_acquisition [p] acquisition bounds model X_batch L Min)
        (fun v => inr (item v)).

(** *** fast_acquisition_optimization *)

Definition fast_acquisition_optimization (acquisition : Acquisition)
    (bounds : bounds_t) (acqu_optimize_restarts : nat) (model : Model)
    (method_type : string) (X_batch : option (list point))
    (L Min : option R) : M RNG point :=
  samples <-
    (if String.eqb method_type "random"
     then draw (samples_multidimensional_uniform ext bounds
                  acqu_optimize_restarts)
     else ret (multigrid ext bounds acqu_optimize_restarts)) ;;
  let pred_samples := acquisition samples in
  i <- lift (argmin pred_samples) ;;
  x0 <- lift (getrow samples i) ;;
  res <- lift (scipy_minimize
                 (objective acquisition bounds model X_batch L Min)
                 x0 bounds) ;;
  ret (opt_x res).

(** *** full_acquisition_optimization *)

(** The loop [for k in range(acqu_optimize_restarts)], collecting the
    results whose [x] and [fun] fill [mins] and [fmins]. *)
Fixpoint full_loop (f : point -> exn + R) (bounds : bounds_t)
    (samples : list point) (ks : list nat) : exn + list OptimizeResult :=
  match ks with
  | [] => inr []
  | k :: ks' =>
      ebind (getrow samples k) (fun x0 =>
      ebind (scipy_minimize f x0 bounds) (fun res =>
      ebind (full_loop f bounds samples ks') (fun rs => inr (res :: rs))))
  end.

Definition full_acquisition_optimization (acquisition : Acquisition)
    (bounds : bounds_t) (acqu_optimize_restarts : nat) (model : Model)
    (method_type : string) (X_batch : option (list point))
    (L Min : option R) : M RNG point :=
  samples <-
    (if String.eqb method_type "random"
     then draw (samples_multidimensional_uniform ext bounds
                  acqu_optimize_restarts)
     else ret (multigrid ext bounds acqu_optimize_restarts)) ;;
  rs <- lift (full_loop (objective acquisition bounds model X_batch L Min)
                bounds samples (seq 0 acqu_optimize_restarts)) ;;
  let mins := map opt_x rs in
  let fmins := map opt_fun rs in
  i <- lift (argmin fmins) ;;
  lift (getrow mins i).

(** *** optimize_acquisition *)

Definition optimize_acquisition (acquisition : Acquisition)
    (bounds : bounds_t) (acqu_optimize_restarts : nat)
    (acqu_optimize_method : string) (model : Model)
    (X_batch : option (list point)) (L Min : option R) : M RNG point :=
  if String.eqb acqu_optimize_method "brute" then
    full_acquisition_optimization acquisition bounds acqu_optimize_restarts
      model "brute" X_batch L Min
  else if String.eqb acqu_optimize_method "random" then
    full_acquisition_optimization acquisition bounds acqu_optimize_restarts
      model "random" X_batch L Min
  else if String.eqb acqu_optimize_method "fast_brute" then
    fast_acquisition_optimization acquisition bounds acqu_optimize_restarts
      model "brute" X_batch L Min
  else if String.eqb acqu_optimize_method "fast_random" then
    fast_acquisition_optimization acquisition bounds acqu_optimize_restarts
      model "random" X_batch L Min
  else raise UnboundLocalError.

(** *** random_batch_optimization *)

(** The loop [while k < n_inbatch] of the random-fill strategy, with
    [fuel = n_inbatch - k] iterations left. *)
Fixpoint random_loop (bounds : bounds_t) (fuel : nat) (X_batch : list point)
  : M RNG (list point) :=
  match fuel with
  | O => ret X_batch
  | S fuel' =>
      new_sample <- draw (samples_multidimensional_uniform ext bounds 1) ;;
      random_loop bounds fuel' (X_batch ++ new_sample)
  end.

(** The first point is the 1-D array returned by [optimize_acquisition];
    [np.vstack] reads it as one row.  When the loop does not run
    ([n_inbatch <= 1]) the source returns that 1-D array itself, which is
    here the batch of its single row, as the callers stack it. *)
Definition random_batch_optimization (acquisition : Acquisition)
    (bounds : bounds_t) (acqu_optimize_restarts : nat)
    (acqu_optimize_method : string) (model : Model) (n_inbatch : nat)
  : M RNG (list point) :=
  X_batch <- optimize_acquisition acquisition bounds acqu_optimize_restarts
               acqu_optimize_method model None None None ;;
  random_loop bounds (n_inbatch - 1) [X_batch].

(** *** adaptive_batch_optimization *)

Fixpoint adaptive_loop (acquisition : Acquisition) (bounds : bounds_t)
    (acqu_optimize_restarts : nat) (acqu_optimize_method : string)
    (model : Model) (L Min : option R) (fuel : nat) (X_batch : list point)
  : M RNG (list point) :=
  match fuel with
  | O => ret X_batch
  | S fuel' =>
      new_sample <- optimize_acquisition acquisition bounds
                      acqu_optimize_restarts acqu_optimize_method model
                      (Some X_batch) L Min ;;
      adaptive_loop acquisition bounds acqu_optimize_restarts
        acqu_optimize_method model L Min fuel' (X_batch ++ [new_sample])
  end.

(** [L] and [Min] are bound only when [n_inbatch > 1]; they are read only
    inside the loop, which then runs, so the unbound case is [None]. *)
Definition adaptive_batch_optimization (acquisition : Acquisition)
    (bounds : bounds_t) (acqu_optimize_restarts : nat)
    (acqu_optimize_method : string) (model : Model) (n_inbatch : nat)
    (alpha_L alpha_Min : R) : M RNG (list point) :=
  X_batch <- optimize_acquisition acquisition bounds acqu_optimize_restarts
               acqu_optimize_method model None None None ;;
  LMin <- (if (1 <? n_inbatch)%nat
           then L <- estimate_L model bounds alpha_L ;;
                Min <- lift (estimate_Min model bounds alpha_Min) ;;
                ret (Some L, Some Min)
           else ret (None, None)) ;;
  adaptive_loop acquisition bounds acqu_optimize_restarts
    acqu_optimize_method model (fst LMin) (snd LMin) (n_inbatch - 1)
    [X_batch].

(** *** hybrid_batch_optimization *)

(** Modelled from the spec: [batchBO.start_optimization(max_iter = 0,
    n_inbatch = 1, ...)] followed by [batchBO.suggested_sample]; the driver
    class is not in this source file.  The spec has the refit surrogate
    "re-optimize a one-shot single-point acquisition against this updated
    posterior": one call of the single-point optimizer on the refit model
    and its acquisition, with no batch so far. *)
Definition start_optimization (batchBO : BO) (bounds : bounds_t)
    (acqu_optimize_method : string) (acqu_optimize_restarts : nat)
  : M RNG point :=
  optimize_acquisition (bo_acquisition batchBO) bounds acqu_optimize_restarts
    acqu_optimize_method (bo_model batchBO) None None None.

Definition stop_message : string :=
  "Optimization stopped. Two equal points selected."%string.

(** The loop [while k < n_inbatch] with its [try ... except LinAlgError:
    print ...; break]; [Xw] and [Yw] are the working copies [X] and [Y]. *)
Fixpoint hybrid_loop (acqu_name : string) (acquisition_par : R)
    (bounds : bounds_t) (acqu_optimize_restarts : nat)
    (acqu_optimize_method : string) (model : Model) (kernel : Kernel)
    (fuel : nat) (Xw : list point) (Yw : list R) (X_new : point)
    (X_batch : list point) : M RNG (list point) :=
  match fuel with
  | O => ret X_batch
  | S fuel' =>
      let Xw := Xw ++ [X_new] in
      let Yw := Yw ++ fst (predict model [X_new]) in
      fun w =>
        match BayesianOptimization ext bounds Xw Yw kernel acqu_name
                acquisition_par w with
        | (inl LinAlgError, w') => (print stop_message ;;; ret X_batch) w'
        | (inl e, w') => (inl e, w')
        | (inr batchBO, w') =>
            (X_new <- start_optimization batchBO bounds acqu_optimize_method
                        acqu_optimize_restarts ;;
             hybrid_loop acqu_name acquisition_par bounds
               acqu_optimize_restarts acqu_optimize_method model kernel
               fuel' Xw Yw X_new (X_batch ++ [X_new])) w'
        end
  end.

Definition hybrid_batch_optimization (acqu_name : string)
    (acquisition_par : R) (acquisition : Acquisition) (bounds : bounds_t)
    (acqu_optimize_restarts : nat) (acqu_optimize_method : string)
    (model : Model) (n_inbatch : nat) : M RNG (list point) :=
  let model_copy := copy model in
  let Xw := X model_copy in
  let Yw := Y model_copy in
  let kernel := kern model_copy in
  X_new <- optimize_acquisition acquisition bounds acqu_optimize_restarts
             acqu_optimize_method model None None None ;;
  let X_batch := [X_new] in
  hybrid_loop acqu_name acquisition_par bounds acqu_optimize_restarts
    acqu_optimize_method model kernel (n_inbatch - 1) Xw Yw X_new X_batch.

(** *** compute_w, compute_batch_weigths and sm_batch_optimization *)

Definition compute_w (mu : list R) (Sigma : matrix) : exn + list R :=
  let n_data := length Sigma in
  ebind (sqrtm_inv ext Sigma) (fun Sigma12 =>
  let probabilities := map norm_cdf (dot Sigma12 mu) in
  inr (map (fun i => prod (delete i probabilities)) (seq 0 n_data))).

Definition compute_batch_weigths (x : list point) (model : Model)
  : exn + list R :=
  let Sigma := K (kern model) x in
  let mu := fst (predict model x) in
  compute_w mu Sigma.

Definition size_message : string :=
  "Initial points should be larger than the batch size"%string.

(** The loop [for k in np.unique(batch_labels)]; [X_batch] is [None] while
    the name is unbound. *)
Fixpoint sm_loop (model : Model) (n_inbatch : nat) (batch_labels : list Z)
    (ks : list Z) (weights : list R) (X_batch : option (list point))
  : M RNG (option (list point)) :=
  match ks with
  | [] => ret X_batch
  | k :: ks' =>
      let mask := map (Z.eqb k) batch_labels in
      let x := select mask (X model) in
      w <- lift (compute_batch_weigths x model) ;;
      weights <- lift (assign mask weights w) ;;
      X_batch <- WKmeans ext (X model) weights n_inbatch ;;
      sm_loop model n_inbatch batch_labels ks' weights (Some X_batch)
  end.

Definition sm_batch_optimization (model : Model) (n_inbatch : nat)
    (batch_labels : list Z) : M RNG (list point) :=
  let n := length (X model) in
  (if (n <? n_inbatch)%nat then print size_message else ret tt) ;;;
  let weights := repeat 0 n in
  X_batch <- sm_loop model n_inbatch batch_labels (unique batch_labels)
               weights None ;;
  match X_batch with
  | None => raise UnboundLocalError
  | Some rows => lift (vstack rows)
  end.

End Optimization.

(** ** The fast optimizer as the spec words it *)

(** Following the spec ("evaluate the (penalized) acquisition on all of
    them in one batched call, pick the arg-min as the single seed for one
    local-optimizer refinement, return its result"): the candidates are
    scored by [penalized_acquisition]; everything else is as in
    [fast_acquisition_optimization]. *)
Definition fast_acquisition_optimization_spec {RNG} (ext : Externals RNG)
    (acquisition : Acquisition) (bounds : bounds_t)
    (acqu_optimize_restarts : nat) (model : Model) (method_type : string)
    (X_batch : option (list point)) (L Min : option R) : M RNG point :=
  samples <-
    (if String.eqb method_type "random"
     then draw (samples_multidimensional_uniform ext bounds
                  acqu_optimize_restarts)
     else ret (multigrid ext bounds acqu_optimize_restarts)) ;;
  pred_samples <-
    lift (penalized_acquisition samples acquisition bounds model X_batch
            L Min) ;;
  i <- lift (argmin pred_samples) ;;
  x0 <- lift (getrow samples i) ;;
  res <- lift (scipy_minimize ext
                 (objective acquisition bounds model X_batch L Min)
                 x0 bounds) ;;
  ret (opt_x res).

(** ** Example inputs *)

(** A one-dimensional model with the single observation f(5) = 2 whose
    posterior has mean 2 and variance [v] at every point and a flat
    posterior-mean gradient. *)
Definition flat_model (v : R) : Model :=
  mkModel [[5]] [2]
    (mkKernel (fun xs => map (fun _ => map (fun _ => 1) xs) xs))
    (fun xs => (map (fun _ => 2) xs, map (fun _ => v) xs))
    (fun xs => (map (fun p => map (fun _ => 0) p) xs,
                map (fun p => map (fun _ => 0) p) xs)).

(** An acquisition worth -1 to the left of 3 and 0 from there on. *)
Definition step_acquisition : Acquisition :=
  map (fun p => if Rlt_dec (item p) 3 then -1 else 0).

(** The lower corner of a box. *)
Definition corner (bounds : bounds_t) : point := map fst bounds.

(** Collaborators over a generator that counts its draws: the uniform
    sampler answers the lower corner, the grid and the minimizer are given,
    the k-means answers its first point once per cluster, the matrix
    function is the identity and the surrogate constructor answers
    [ctor]. *)
Definition example_ext (grid : bounds_t -> nat -> list point)
    (minim : (point -> R) -> point -> bounds_t -> OptimizeResult)
    (ctor : exn + BO) : Externals nat :=
  mkExternals
    (fun b n g => (repeat (corner b) n, S g))
    grid
    minim
    (fun Xs _ n => ret (repeat (hd [] Xs) n))
    (fun Sigma => inr Sigma)
    (fun _ _ _ _ _ _ => lift ctor).

(** A minimizer that stays at its starting point. *)
Definition stay (f : point -> R) (x0 : point) (_ : bounds_t)
  : OptimizeResult :=
  mkRes x0 (f x0).

(** A minimizer that answers the lower corner of the box. *)
Definition to_corner (f : point -> R) (_ : point) (b : bounds_t)
  : OptimizeResult :=
  mkRes (corner b) (f (corner b)).

(** The grid of the two points 0 and 1. *)
Definition grid01 (_ : bounds_t) (_ : nat) : list point := [[0]; [1]].

(** A grid of copies of the lower corner. *)
Definition grid_corner (b : bounds_t) (n : nat) : list point :=
  repeat (corner b) n.

Definition world0 : World nat := mkWorld 0%nat [].

(** Collaborators whose surrogate constructor raises the
    singular-covariance error exactly when two rows of the data coincide,
    and otherwise answers the surrogate [flat_model 1] with the acquisition
    [step_acquisition]; the grid is 0 and 1 and the minimizer stays where
    it starts. *)
Definition refit_ext : Externals nat :=
  mkExternals
    (fun b n g => (repeat (corner b) n, S g))
    grid01
    stay
    (fun Xs _ n => ret (repeat (hd [] Xs) n))
    (fun Sigma => inr Sigma)
    (fun _ Xw _ _ _ _ =>
       lift (if NoDup_dec (list_eq_dec Req_dec_T) Xw
             then inr (mkBO (flat_model 1) step_acquisition)
             else inl LinAlgError)).

(** The collaborators of the examples that look at the seed: the grid of
    0 and 1 and the minimizer that stays where it starts. *)
Definition ext1 : Externals nat := example_ext grid01 stay (inl LinAlgError).

(** A model that holds no observation yet. *)
Definition empty_model : Model :=
  mkModel [] []
    (mkKernel (fun xs => map (fun _ => map (fun _ => 1) xs) xs))
    (fun xs => (map (fun _ => 2) xs, map (fun _ => 1) xs))
    (fun xs => (map (fun p => map (fun _ => 0) p) xs,
                map (fun p => map (fun _ => 0) p) xs)).

(** Collaborators whose matrix function refuses every matrix as singular;
    the rest is as in [example_ext] with the corner grid and the minimizer
    that stays. *)
Definition singular_ext : Externals nat :=
  mkExternals
    (fun b n g => (repeat (corner b) n, S g))
    grid_corner
    stay
    (fun Xs _ n => ret (repeat (hd [] Xs) n))
    (fun _ => inl LinAlgError)
    (fun _ _ _ _ _ _ => lift (inl LinAlgError)).

(** ** Contracts of the collaborators and predicates on computations *)

Definition methods : list string :=
  ["brute"; "random"; "fast_brute"; "fast_random"]%string.

(** The candidates both optimizers draw: uniform samples for the method
    type "random", the grid otherwise. *)
Definition candidates {RNG} (ext : Externals RNG) (method_type : string)
    (bounds : bounds_t) (n : nat) : M RNG (list point) :=
  if String.eqb method_type "random"
  then draw (samples_multidimensional_uniform ext bounds n)
  else ret (multigrid ext bounds n).

(** [post m P]: whenever [m] returns a value, the value satisfies [P]. *)
Definition post {RNG A} (m : M RNG A) (P : A -> Prop) : Prop :=
  forall w a w', m w = (inr a, w') -> P a.

(** [total m P]: from every world [m] returns a value that satisfies [P]. *)
Definition total {RNG A} (m : M RNG A) (P : A -> Prop) : Prop :=
  forall w, exists a w', m w = (inr a, w') /\ P a.

(** [never m e]: the computation [m] does not end in the exception [e]. *)
Definition never {RNG A} (m : M RNG A) (e : exn) : Prop :=
  forall w, fst (m w) <> inl e.

(** An acquisition answers one score per point. *)
Definition acquisition_contract (a : Acquisition) : Prop :=
  forall xs, length (a xs) = length xs.

(** The model answers one gradient row per point. *)
Definition gradient_contract (model : Model) : Prop :=
  forall xs, length (fst (predictive_gradients model xs)) = length xs.

(** [L] and [Min] are there when a batch point has to be penalized. *)
Definition penalty_ready (X_batch : option (list point)) (L Min : option R)
  : Prop :=
  match X_batch with
  | Some (_ :: _) => L <> None /\ Min <> None
  | _ => True
  end.

(** The samplers answer as many points as they are asked for. *)
Definition sampler_count {RNG} (ext : Externals RNG) (bounds : bounds_t)
  : Prop :=
  forall n g,
    length (fst (samples_multidimensional_uniform ext bounds n g)) = n.

Definition grid_count {RNG} (ext : Externals RNG) (bounds : bounds_t)
  : Prop :=
  forall n, length (multigrid ext bounds n) = n.

(** The minimizer keeps its answer inside the box it is given. *)
Definition minimizer_in_bounds {RNG} (ext : Externals RNG)
    (bounds : bounds_t) : Prop :=
  forall f x0, in_bounds bounds (opt_x (minimize ext f x0 bounds)).

(** The uniform sampler keeps its samples inside the box it is given. *)
Definition sampler_in_bounds {RNG} (ext : Externals RNG)
    (bounds : bounds_t) : Prop :=
  forall n g,
    Forall (in_bounds bounds)
           (fst (samples_multidimensional_uniform ext bounds n g)).

(** The surrogate constructor either raises the singular-covariance error
    or answers a surrogate with observations and an acquisition that
    scores every point. *)
Definition refit_contract {RNG} (ext : Externals RNG) (bounds : bounds_t)
  : Prop :=
  forall Xw Yw kernel acqu_name acquisition_par w,
    match BayesianOptimization ext bounds Xw Yw kernel acqu_name
            acquisition_par w with
    | (inl e, _) => e = LinAlgError
    | (inr batchBO, _) =>
        acquisition_contract (bo_acquisition batchBO) /\
        X (bo_model batchBO) <> []
    end.

(** The surrogate constructor never raises the singular-covariance error. *)
Definition never_singular {RNG} (ext : Externals RNG) (bounds : bounds_t)
  : Prop :=
  forall Xw Yw kernel acqu_name acquisition_par w,
    fst (BayesianOptimization ext bounds Xw Yw kernel acqu_name
           acquisition_par w) <> inl LinAlgError.

(** The k-means answers as many centroids as clusters are asked for. *)
Definition kmeans_contract {RNG} (ext : Externals RNG) (n : nat) : Prop :=
  forall Xs weights, total (WKmeans ext Xs weights n) (fun c => length c = n).

(** The kernel matrix of k points has k rows and its inverse square root
    exists. *)
Definition kernel_contract {RNG} (ext : Externals RNG) (model : Model)
  : Prop :=
  forall x,
    length (K (kern model) x) = length x /\
    exists Sigma12, sqrtm_inv ext (K (kern model) x) = inr Sigma12.

(** ** Properties of the normal distribution function *)

Lemma gauss_int_diff (x y : R) :
  gauss_int y - gauss_int x = RiemannInt (gauss_integrable x y).
Proof.
  unfold gauss_int.
  rewrite <- (RiemannInt_P26 (gauss_integrable 0 x) (gauss_integrable x y)
                (gauss_integrable 0 y)).
  ring.
Qed.

Lemma gauss_lower (x y t : R) :
  x <= t <= y -> exp (- (x * x + y * y) / 2) <= gauss t.
Proof.
  intros [H1 H2]. unfold gauss.
  assert (Hsq : t * t <= x * x + y * y) by (destruct (Rle_dec 0 t); nra).
  destruct (Req_dec (x * x + y * y) (t * t)) as [-> | Hne].
  - right; reflexivity.
  - left. apply exp_increasing. lra.
Qed.

Lemma gauss_int_increasing (x y : R) : x < y -> gauss_int x < gauss_int y.
Proof.
  intros Hxy.
  apply Rlt_0_minus. rewrite gauss_int_diff.
  set (c := exp (- (x * x + y * y) / 2)).
  apply Rlt_le_trans with (c * (y - x)).
  - apply Rmult_lt_0_compat; [apply exp_pos | lra].
  - rewrite <- (RiemannInt_P15 (RiemannInt_P14 x y c)).
    apply RiemannInt_P19; [lra |].
    intros t Ht. unfold fct_cte, c. apply gauss_lower. lra.
Qed.

Lemma sqrt_2PI_pos : 0 < sqrt (2 * PI).
Proof. apply sqrt_lt_R0. generalize PI_RGT_0. lra. Qed.

Lemma norm_cdf_increasing (x y : R) : x < y -> norm_cdf x < norm_cdf y.
Proof.
  intros H. unfold norm_cdf.
  apply Rplus_lt_compat_l, Rmult_lt_compat_r.
  - apply Rinv_0_lt_compat, sqrt_2PI_pos.
  - now apply gauss_int_increasing.
Qed.

Lemma norm_cdf_monotone (x y : R) : x <= y -> norm_cdf x <= norm_cdf y.
Proof.
  intros [H | ->]; [left; now apply norm_cdf_increasing | right; reflexivity].
Qed.

Lemma norm_cdf_0 : norm_cdf 0 = 1 / 2.
Proof.
  unfold norm_cdf, gauss_int. rewrite RiemannInt_P9. unfold Rdiv. ring.
Qed.

(** ** Properties of the helpers *)

Ltac case_Rlt :=
  match goal with
  | |- context [Rlt_dec ?a ?b] => destruct (Rlt_dec a b)
  end.

Lemma sign_abs (v : R) : sign v * Rabs v = v.
Proof.
  unfold sign.
  destruct (Rlt_dec 0 v) as [Hp | Hp].
  - rewrite Rabs_pos_eq; lra.
  - destruct (Rlt_dec v 0) as [Hn | Hn].
    + rewrite Rabs_left; lra.
    + ring_simplify. lra.
Qed.

Lemma neg_length (l : list R) : length (neg l) = length l.
Proof. apply length_map. Qed.

Lemma neg_multiply (a b : list R) : neg (multiply a b) = multiply (neg a) b.
Proof.
  unfold neg, multiply. revert b.
  induction a as [| u a IH]; intros [| v b]; simpl; try reflexivity.
  rewrite IH. f_equal. ring.
Qed.

Lemma minimum_inr (l : list R) : l <> [] -> exists m, minimum l = inr m.
Proof.
  destruct l as [| v l']; [congruence | intros _; simpl; eauto].
Qed.

Lemma getrow_In {A} (a : list A) (i : nat) (r : A) :
  getrow a i = inr r -> In r a.
Proof.
  unfold getrow. destruct (nth_error a i) eqn:E; [| discriminate].
  intros H; inversion H; subst. eapply nth_error_In; eauto.
Qed.

Lemma getrow_lt {A} (a : list A) (i : nat) :
  (i < length a)%nat -> exists r, getrow a i = inr r.
Proof.
  intros H. unfold getrow.
  destruct (nth_error a i) eqn:E; [eauto |].
  apply nth_error_None in E. lia.
Qed.

(** [np.argmin] returns an index of the array whose entry is a minimum and
    lies strictly below every earlier entry. *)
Lemma argmin_from_spec (l pre : list R) (best : R) (bi : nat) :
  nth_error pre bi = Some best ->
  (forall j v, nth_error pre j = Some v -> best <= v) ->
  (forall j v, (j < bi)%nat -> nth_error pre j = Some v -> best < v) ->
  exists vr,
    nth_error (pre ++ l) (argmin_from best bi (length pre) l) = Some vr /\
    (forall j v, nth_error (pre ++ l) j = Some v -> vr <= v) /\
    (forall j v, (j < argmin_from best bi (length pre) l)%nat ->
                 nth_error (pre ++ l) j = Some v -> vr < v).
Proof.
  revert pre best bi.
  induction l as [| u l IH]; intros pre best bi Hbi Hmin Hfirst; simpl.
  - rewrite app_nil_r. eauto.
  - assert (Hlen : length (pre ++ [u]) = S (length pre))
      by (rewrite length_app; simpl; lia).
    assert (Hsplit : pre ++ u :: l = (pre ++ [u]) ++ l)
      by (rewrite <- app_assoc; reflexivity).
    assert (Hcase : forall j v, nth_error (pre ++ [u]) j = Some v ->
              (nth_error pre j = Some v /\ (j < length pre)%nat) \/
              (j = length pre /\ v = u)).
    { intros j v Hj.
      destruct (Nat.lt_ge_cases j (length pre)) as [Hlt | Hge].
      - left. rewrite nth_error_app1 in Hj by exact Hlt. auto.
      - right. rewrite nth_error_app2 in Hj by exact Hge.
        destruct (j - length pre)%nat as [| k] eqn:Ek; simpl in Hj.
        + inversion Hj. split; [lia | reflexivity].
        + destruct k; discriminate. }
    assert (Hbilt : (bi < length pre)%nat)
      by (apply nth_error_Some; congruence).
    rewrite Hsplit, <- Hlen.
    destruct (Rlt_dec u best) as [Hlt | Hge].
    + apply IH.
      * rewrite nth_error_app2 by lia. rewrite Nat.sub_diag. reflexivity.
      * intros j v Hj. destruct (Hcase j v Hj) as [[Hp _] | [_ ->]].
        -- specialize (Hmin j v Hp). lra.
        -- lra.
      * intros j v Hjlt Hj. destruct (Hcase j v Hj) as [[Hp _] | [Hj' _]].
        -- specialize (Hmin j v Hp). lra.
        -- lia.
    + apply IH.
      * rewrite nth_error_app1 by exact Hbilt. exact Hbi.
      * intros j v Hj. destruct (Hcase j v Hj) as [[Hp _] | [_ ->]].
        -- exact (Hmin j v Hp).
        -- lra.
      * intros j v Hjlt Hj. destruct (Hcase j v Hj) as [[Hp _] | [Hj' _]].
        -- exact (Hfirst j v Hjlt Hp).
        -- lia.
Qed.

Lemma argmin_spec (l : list R) (i : nat) :
  argmin l = inr i ->
  exists vi,
    nth_error l i = Some vi /\
    (forall j v, nth_error l j = Some v -> vi <= v) /\
    (forall j v, (j < i)%nat -> nth_error l j = Some v -> vi < v).
Proof.
  destruct l as [| u l]; [discriminate |].
  simpl. intros H. inversion H; subst; clear H.
  change (u :: l) with ([u] ++ l).
  change 1%nat with (length [u]).
  apply argmin_from_spec.
  - reflexivity.
  - intros [| [| j]] v Hj; simpl in Hj; try discriminate.
    inversion Hj. lra.
  - intros j v Hj. lia.
Qed.

Lemma argmin_lt (l : list R) (i : nat) :
  argmin l = inr i -> (i < length l)%nat.
Proof.
  intros H. destruct (argmin_spec l i H) as (vi & Hi & _).
  apply nth_error_Some. congruence.
Qed.

Lemma argmin_inr (l : list R) : l <> [] -> exists i, argmin l = inr i.
Proof.
  destruct l as [| v l']; [congruence | intros _; simpl; eauto].
Qed.

(** Adding one offset to every score does not move the arg-min. *)
Lemma argmin_from_shift (c : R) (l : list R) (best : R) (bi i : nat) :
  argmin_from (best + c) bi i (map (fun a => a + c) l)
  = argmin_from best bi i l.
Proof.
  revert best bi i.
  induction l as [| u l IH]; intros best bi i; simpl; [reflexivity |].
  destruct (Rlt_dec (u + c) (best + c)), (Rlt_dec u best);
    try lra; apply IH.
Qed.

Lemma argmin_shift (c : R) (l : list R) :
  argmin (map (fun a => a + c) l) = argmin l.
Proof.
  destruct l as [| u l]; simpl; [reflexivity |].
  now rewrite argmin_from_shift.
Qed.

(** ** The penalizer *)

(** The hammer factors of a batch folded over the values [v]. *)
Lemma penalize_fold (x : list point) (model : Model) (l mn : R)
    (rows : list point) (v : list R) :
  penalize x model (Some l) (Some mn) rows v
  = inr (fold_left
           (fun acc x0 => multiply acc (hammer_function x x0 l mn model))
           rows v).
Proof.
  revert v. induction rows as [| x0 rows IH]; intros v; simpl;
    [reflexivity | apply IH].
Qed.

Lemma neg_fold_hammer (x : list point) (model : Model) (l mn : R)
    (rows : list point) (v : list R) :
  neg (fold_left
         (fun acc x0 => multiply acc (hammer_function x x0 l mn model))
         rows v)
  = fold_left
      (fun acc x0 => multiply acc (hammer_function x x0 l mn model))
      rows (neg v).
Proof.
  revert v. induction rows as [| x0 rows IH]; intros v; simpl;
    [reflexivity |].
  rewrite IH, neg_multiply. reflexivity.
Qed.

Lemma normalized_neg (sur_min : R) (scores : list R) :
  neg (map (fun a => a - sign sur_min * Rabs sur_min) (neg scores))
  = map (fun a => a + sur_min) scores.
Proof.
  unfold neg. rewrite !map_map. apply map_ext. intros a.
  rewrite sign_abs. ring.
Qed.

(** C5.  With no batch point selected yet ([X_batch] is [None], or an
    array with no row) the penalized acquisition is, for every array of
    query points, the raw acquisition with the sign/offset normalization and
    nothing else: every score is shifted by [sur_min = min(-acquisition(X))]
    and no hammer factor is applied.  With a batch the very same normalized
    scores are multiplied by the hammer factors. *)
Theorem penalized_acquisition_empty_batch :
  forall (x : list point) (acquisition : Acquisition) (bounds : bounds_t)
         (model : Model) (L Min : option R),
    penalized_acquisition x acquisition bounds model None L Min
    = ebind (minimum (neg (acquisition (X model))))
            (fun sur_min => inr (map (fun a => a + sur_min) (acquisition x)))
    /\ penalized_acquisition x acquisition bounds model (Some []) L Min
       = penalized_acquisition x acquisition bounds model None L Min
    /\ forall (rows : list point) (l mn : R),
         penalized_acquisition x acquisition bounds model (Some rows)
           (Some l) (Some mn)
         = ebind (minimum (neg (acquisition (X model))))
             (fun sur_min =>
                inr (fold_left
                       (fun acc x0 =>
                          multiply acc (hammer_function x x0 l mn model))
                       rows (map (fun a => a + sur_min) (acquisition x)))).
Proof.
  intros x acquisition bounds model L Min.
  unfold penalized_acquisition.
  destruct (minimum (neg (acquisition (X model)))) as [e | sur_min]; simpl.
  - repeat split; reflexivity.
  - rewrite normalized_neg. repeat split; try reflexivity.
    intros rows l mn. rewrite penalize_fold. simpl.
    rewrite neg_fold_hammer, normalized_neg. reflexivity.
Qed.

(** Every floored variance is at least 1e-16, so its root and the scaled
    spread are positive. *)
Lemma hammer_pred_floor (x0 : point) (model : Model) :
  Forall (fun v => 1e-16 <= v) (hammer_pred x0 model).
Proof.
  unfold hammer_pred. apply Forall_map, Forall_forall. intros v _.
  destruct (Rlt_dec v 1e-16); lra.
Qed.

Lemma hammer_s_pos (x0 : point) (model : Model) :
  Forall (fun s => 0 < s) (hammer_s x0 model).
Proof.
  unfold hammer_s. apply Forall_map.
  eapply Forall_impl; [| apply hammer_pred_floor].
  intros v Hv. apply sqrt_lt_R0. lra.
Qed.

Lemma hammer_s_x0_pos (x0 : point) (L : R) (model : Model) :
  0 < L -> Forall (fun s => 0 < s) (hammer_s_x0 x0 L model).
Proof.
  intros HL. unfold hammer_s_x0. apply Forall_map.
  eapply Forall_impl; [| apply hammer_s_pos].
  intros s Hs. apply Rdiv_lt_0_compat; assumption.
Qed.

Lemma hammer_s_x0_length (x0 : point) (L : R) (model : Model) :
  length (hammer_s_x0 x0 L model) = length (snd (predict model [x0])).
Proof.
  unfold hammer_s_x0, hammer_s, hammer_pred. now rewrite !length_map.
Qed.

(** C9.  Whatever variance the model reports at [x0] (zero and negative
    values included), every entry is at least 1e-16 after the floor, its
    square root is positive, and for a positive Lipschitz estimate every
    entry of the divisor [s_x0 = s / L] is positive; no entry is lost, and
    when the model answers the one variance of the one point, the divisor
    used by [hammer_function] is positive, hence not zero. *)
Theorem hammer_function_divisor_positive :
  forall (x0 : point) (L : R) (model : Model),
    0 < L ->
    Forall (fun v => 1e-16 <= v) (hammer_pred x0 model) /\
    Forall (fun s => 0 < s) (hammer_s x0 model) /\
    Forall (fun s => 0 < s) (hammer_s_x0 x0 L model) /\
    length (hammer_s_x0 x0 L model) = length (snd (predict model [x0])) /\
    (snd (predict model [x0]) <> [] -> 0 < item (hammer_s_x0 x0 L model)).
Proof.
  intros x0 L model HL.
  repeat split.
  - apply hammer_pred_floor.
  - apply hammer_s_pos.
  - now apply hammer_s_x0_pos.
  - apply hammer_s_x0_length.
  - intros Hne.
    pose proof (hammer_s_x0_pos x0 L model HL) as Hall.
    pose proof (hammer_s_x0_length x0 L model) as Hlen.
    destruct (hammer_s_x0 x0 L model) as [| s rest].
    + destruct (snd (predict model [x0])); [congruence | discriminate].
    + simpl. now inversion Hall.
Qed.

(** The Lipschitz estimate the penalization strategy passes on is positive,
    so the divisor built from it is. *)
Lemma hammer_s_x0_pos_estimate {RNG} (ext : Externals RNG) (model : Model)
    (bounds : bounds_t) (alpha : R) (w w' : World RNG) (L : R) (x0 : point) :
  estimate_L ext model bounds alpha w = (inr L, w') ->
  Forall (fun s => 0 < s) (hammer_s_x0 x0 L model).
Proof.
  intros H. apply hammer_s_x0_pos.
  unfold estimate_L, bind, draw, lift, ret in H.
  destruct (samples_multidimensional_uniform ext bounds 5 (rng w))
    as [samples g].
  destruct (argmin (df samples model alpha)) as [e | i]; [discriminate |].
  destruct (getrow samples i) as [e | p]; [discriminate |].
  inversion H; subst; clear H.
  match goal with |- context [Rlt_dec ?a ?b] => destruct (Rlt_dec a b) end;
    lra.
Qed.

(** The divisor of the hammer is never negative for a positive [L]. *)
Lemma hammer_divisor_inv_nonneg (x0 : point) (L : R) (model : Model) :
  0 < L -> 0 <= / item (hammer_s_x0 x0 L model).
Proof.
  intros HL.
  pose proof (hammer_s_x0_pos x0 L model HL) as Hall.
  destruct (hammer_s_x0 x0 L model) as [| s rest]; simpl.
  - rewrite Rinv_0. lra.
  - inversion Hall; subst. left. now apply Rinv_0_lt_compat.
Qed.

(** C6.  For a fixed batch point [x0], a positive Lipschitz estimate [L],
    a minimum estimate [Min] and a model, the exclusion value of
    [hammer_function] does not decrease with the distance to [x0]: a query
    point at least as far from [x0] as another gets at least its value. *)
Theorem hammer_function_monotone :
  forall (x y x0 : point) (L Min : R) (model : Model),
    0 < L ->
    dist x x0 <= dist y x0 ->
    item (hammer_function [x] x0 L Min model)
    <= item (hammer_function [y] x0 L Min model).
Proof.
  intros x y x0 L Min model HL Hd.
  unfold hammer_function; simpl.
  apply norm_cdf_monotone. unfold Rdiv.
  apply Rmult_le_compat_r.
  - now apply hammer_divisor_inv_nonneg.
  - lra.
Qed.

Lemma hammer_function_divisor_positive_witness :
  Forall (fun v => 1e-16 <= v) (hammer_pred [0] (flat_model 0)) /\
  Forall (fun s => 0 < s) (hammer_s [0] (flat_model 0)) /\
  Forall (fun s => 0 < s) (hammer_s_x0 [0] 100 (flat_model 0)) /\
  length (hammer_s_x0 [0] 100 (flat_model 0))
  = length (snd (predict (flat_model 0) [[0]])) /\
  (snd (predict (flat_model 0) [[0]]) <> [] ->
   0 < item (hammer_s_x0 [0] 100 (flat_model 0))).
Proof.
  apply (hammer_function_divisor_positive [0] 100 (flat_model 0)). lra.
Defined.

Lemma dist_example : dist [0] [0] <= dist [1] [0].
Proof.
  unfold dist; simpl. apply sqrt_le_1_alt. lra.
Qed.

Lemma hammer_function_monotone_witness :
  item (hammer_function [[0]] [0] 1 2 (flat_model 1))
  <= item (hammer_function [[1]] [0] 1 2 (flat_model 1)).
Proof.
  apply (hammer_function_monotone [0] [1] [0] 1 2 (flat_model 1)).
  - lra.
  - exact dist_example.
Defined.

(** ** The Lipschitz estimate *)

Lemma df_length (x : list point) (model : Model) (alpha : R) :
  length (df x model alpha) = length (fst (predictive_gradients model x)).
Proof. unfold df, neg. now rewrite !length_map. Qed.

(** Whenever [estimate_L] returns, its value is at least 0.1. *)
Lemma estimate_L_ge {RNG} (ext : Externals RNG) (model : Model)
    (bounds : bounds_t) (alpha : R) (w w' : World RNG) (L : R) :
  estimate_L ext model bounds alpha w = (inr L, w') -> 0.1 <= L.
Proof.
  unfold estimate_L, bind, draw, lift, ret.
  destruct (samples_multidimensional_uniform ext bounds 5 (rng w))
    as [samples g].
  destruct (argmin (df samples model alpha)) as [e | i]; [discriminate |].
  destruct (getrow samples i) as [e | x0]; [discriminate |].
  intros H; inversion H; subst; clear H.
  match goal with |- context [Rlt_dec ?a ?b] => destruct (Rlt_dec a b) end;
    lra.
Qed.

(** C7.  When the sampler answers at least one point and the model one
    gradient per point, [estimate_L] returns a value [L] that is at least
    0.1; with [raw] the negated minimum found from the seed [x0] (one of the
    samples), [L] is exactly 100 when [raw < 0.1] and [raw] otherwise.  In
    particular, for a model whose posterior-mean gradient norm is below 0.1
    at every point, and a minimizer whose reported value is the objective
    at its reported point, the estimate is exactly 100. *)
Theorem estimate_L_floor :
  forall (RNG : Type) (ext : Externals RNG) (model : Model)
         (bounds : bounds_t) (alpha : R) (w : World RNG),
    fst (samples_multidimensional_uniform ext bounds 5 (rng w)) <> [] ->
    (forall xs, length (fst (predictive_gradients model xs)) = length xs) ->
    exists (x0 : point) (L : R) (w' : World RNG),
      In x0 (fst (samples_multidimensional_uniform ext bounds 5 (rng w))) /\
      estimate_L ext model bounds alpha w = (inr L, w') /\
      let res :=
        minimize ext (fun p => item (df [p] model alpha)) x0 bounds in
      0.1 <= L /\
      (- opt_fun res < 0.1 -> L = 100) /\
      (0.1 <= - opt_fun res -> L = - opt_fun res) /\
      ((forall p, - 0.1 < item (df [p] model alpha)) ->
       opt_fun res = item (df [opt_x res] model alpha) ->
       L = 100).
Proof.
  intros RNG ext model bounds alpha w Hne Hgrad.
  unfold estimate_L, bind, draw, lift, ret.
  destruct (samples_multidimensional_uniform ext bounds 5 (rng w))
    as [samples g] eqn:Es.
  simpl in Hne.
  destruct (argmin_inr (df samples model alpha)) as [i Hi].
  { intros Hnil. apply (f_equal (@length R)) in Hnil.
    rewrite df_length, Hgrad in Hnil.
    destruct samples; [congruence | discriminate]. }
  rewrite Hi.
  destruct (getrow_lt samples i) as [x0 Hx0].
  { apply argmin_lt in Hi. now rewrite df_length, Hgrad in Hi. }
  rewrite Hx0.
  exists x0. eexists. eexists.
  split; [simpl; eapply getrow_In; eauto |].
  split; [reflexivity |].
  cbv zeta.
  set (res := minimize ext (fun p => item (df [p] model alpha)) x0 bounds).
  destruct (Rlt_dec (- opt_fun res) 0.1) as [Hlt | Hge].
  - repeat split; try lra.
  - repeat split; try lra.
    intros Hflat Hfun. specialize (Hflat (opt_x res)). lra.
Qed.

Lemma estimate_L_floor_witness :
  exists (x0 : point) (L : R) (w' : World nat),
    In x0 (fst (samples_multidimensional_uniform
                  (example_ext grid_corner stay (inl LinAlgError))
                  [(0, 1)] 5 (rng world0))) /\
    estimate_L (example_ext grid_corner stay (inl LinAlgError))
      (flat_model 1) [(0, 1)] 0.025 world0 = (inr L, w') /\
    let res :=
      minimize (example_ext grid_corner stay (inl LinAlgError))
        (fun p => item (df [p] (flat_model 1) 0.025)) x0 [(0, 1)] in
    0.1 <= L /\
    (- opt_fun res < 0.1 -> L = 100) /\
    (0.1 <= - opt_fun res -> L = - opt_fun res) /\
    ((forall p, - 0.1 < item (df [p] (flat_model 1) 0.025)) ->
     opt_fun res = item (df [opt_x res] (flat_model 1) 0.025) ->
     L = 100).
Proof.
  apply (estimate_L_floor nat (example_ext grid_corner stay (inl LinAlgError))
           (flat_model 1) [(0, 1)] 0.025 world0).
  - simpl. discriminate.
  - intros xs. simpl. apply length_map.
Defined.

(** For the flat example model the estimate is the fallback 100. *)
Example estimate_L_flat_model :
  fst (estimate_L (example_ext grid_corner stay (inl LinAlgError))
         (flat_model 1) [(0, 1)] 0.025 world0) = inr 100.
Proof.
  unfold estimate_L, bind, draw, lift, ret, df, neg, item; simpl.
  replace (0 * 0 + 0) with 0 by ring. rewrite sqrt_0.
  repeat case_Rlt; try lra; simpl;
    replace (0 * 0 + 0) with 0 by ring; rewrite sqrt_0;
    repeat case_Rlt; try lra; reflexivity.
Qed.

(** ** The method selector *)

(** C10.  [optimize_acquisition] dispatches the four method names to the
    full and the fast optimizer with the sampler each name stands for, and
    for every other method value it fails with [UnboundLocalError] (the
    name [res] was never assigned), leaving the world as it was: no point is
    returned and no default method is tried. *)
Theorem optimize_acquisition_methods :
  forall (RNG : Type) (ext : Externals RNG) (acquisition : Acquisition)
         (bounds : bounds_t) (restarts : nat) (model : Model)
         (X_batch : option (list point)) (L Min : option R),
    optimize_acquisition ext acquisition bounds restarts "brute" model
      X_batch L Min
    = full_acquisition_optimization ext acquisition bounds restarts model
        "brute" X_batch L Min
    /\ optimize_acquisition ext acquisition bounds restarts "random" model
         X_batch L Min
       = full_acquisition_optimization ext acquisition bounds restarts model
           "random" X_batch L Min
    /\ optimize_acquisition ext acquisition bounds restarts "fast_brute"
         model X_batch L Min
       = fast_acquisition_optimization ext acquisition bounds restarts model
           "brute" X_batch L Min
    /\ optimize_acquisition ext acquisition bounds restarts "fast_random"
         model X_batch L Min
       = fast_acquisition_optimization ext acquisition bounds restarts model
           "random" X_batch L Min
    /\ forall (method : string),
         ~ In method methods ->
         forall w : World RNG,
           optimize_acquisition ext acquisition bounds restarts method model
             X_batch L Min w
           = (inl UnboundLocalError, w).
Proof.
  intros RNG ext acquisition bounds restarts model X_batch L Min.
  repeat split; try reflexivity.
  intros method Hnot w. unfold optimize_acquisition.
  destruct (String.eqb_spec method "brute") as [-> | _];
    [exfalso; apply Hnot; simpl; tauto |].
  destruct (String.eqb_spec method "random") as [-> | _];
    [exfalso; apply Hnot; simpl; tauto |].
  destruct (String.eqb_spec method "fast_brute") as [-> | _];
    [exfalso; apply Hnot; simpl; tauto |].
  destruct (String.eqb_spec method "fast_random") as [-> | _];
    [exfalso; apply Hnot; simpl; tauto |].
  reflexivity.
Qed.

Lemma optimize_acquisition_methods_witness :
  optimize_acquisition (example_ext grid_corner stay (inl LinAlgError))
    step_acquisition [(0, 1)] 3 "lbfgs" (flat_model 1) None None None world0
  = (inl UnboundLocalError, world0).
Proof.
  destruct (optimize_acquisition_methods nat
              (example_ext grid_corner stay (inl LinAlgError))
              step_acquisition [(0, 1)] 3%nat (flat_model 1) None None None)
    as (_ & _ & _ & _ & Hother).
  apply Hother. unfold methods. simpl.
  intros [H | [H | [H | [H | []]]]]; discriminate H.
Defined.

(** ** The fast optimizer *)

Lemma penalized_acquisition_None (x : list point) (acquisition : Acquisition)
    (bounds : bounds_t) (model : Model) (L Min : option R) :
  penalized_acquisition x acquisition bounds model None L Min
  = ebind (minimum (neg (acquisition (X model))))
          (fun sur_min => inr (map (fun a => a + sur_min) (acquisition x))).
Proof.
  unfold penalized_acquisition.
  destruct (minimum (neg (acquisition (X model)))) as [e | sur_min]; simpl;
    [reflexivity | now rewrite normalized_neg].
Qed.

Lemma penalized_acquisition_nil (x : list point) (acquisition : Acquisition)
    (bounds : bounds_t) (model : Model) (L Min : option R) :
  penalized_acquisition x acquisition bounds model (Some []) L Min
  = penalized_acquisition x acquisition bounds model None L Min.
Proof. reflexivity. Qed.

Lemma candidates_inr {RNG} (ext : Externals RNG) (method_type : string)
    (bounds : bounds_t) (n : nat) (w : World RNG) :
  exists samples w1,
    candidates ext method_type bounds n w = (inr samples, w1) /\
    stdout w1 = stdout w /\
    (samples = fst (samples_multidimensional_uniform ext bounds n (rng w))
     \/ samples = multigrid ext bounds n).
Proof.
  unfold candidates, draw, ret.
  destruct (String.eqb method_type "random").
  - destruct (samples_multidimensional_uniform ext bounds n (rng w))
      as [samples g]; simpl. eauto 6.
  - eauto 6.
Qed.

(** C1, as the code has it.  When the fast optimizer returns a point, the
    candidates were scored by the raw acquisition in one batched call, the
    seed [x0] is the candidate at the first arg-min [i] of those raw scores,
    whatever the batch-so-far, and the result is the minimizer's answer for
    the penalized objective started at [x0].  When the batch-so-far is empty
    and the acquisition scores the observed points, this is the optimizer
    the spec words: the arg-min of the penalized scores is the same seed. *)
Theorem fast_acquisition_seed :
  forall (RNG : Type) (ext : Externals RNG) (acquisition : Acquisition)
         (bounds : bounds_t) (restarts : nat) (model : Model)
         (method_type : string) (L Min : option R) (w : World RNG),
    acquisition (X model) <> [] ->
    (fast_acquisition_optimization ext acquisition bounds restarts model
       method_type None L Min w
     = fast_acquisition_optimization_spec ext acquisition bounds restarts
         model method_type None L Min w)
    /\ (fast_acquisition_optimization ext acquisition bounds restarts model
          method_type (Some []) L Min w
        = fast_acquisition_optimization_spec ext acquisition bounds restarts
            model method_type (Some []) L Min w)
    /\ forall (X_batch : option (list point)) (x : point) (w' : World RNG),
         fast_acquisition_optimization ext acquisition bounds restarts model
           method_type X_batch L Min w = (inr x, w') ->
         exists (samples : list point) (i : nat) (x0 : point) (vi : R)
                (res : OptimizeResult),
           candidates ext method_type bounds restarts w = (inr samples, w') /\
           nth_error samples i = Some x0 /\
           nth_error (acquisition samples) i = Some vi /\
           (forall j v, nth_error (acquisition samples) j = Some v ->
                        vi <= v) /\
           (forall j v, (j < i)%nat ->
                        nth_error (acquisition samples) j = Some v ->
                        vi < v) /\
           scipy_minimize ext
             (objective acquisition bounds model X_batch L Min) x0 bounds
           = inr res /\
           x = opt_x res.
Proof.
  intros RNG ext acquisition bounds restarts model method_type L Min w Hobs.
  assert (Hempty : forall X_batch,
    X_batch = None \/ X_batch = Some [] ->
    fast_acquisition_optimization ext acquisition bounds restarts model
      method_type X_batch L Min w
    = fast_acquisition_optimization_spec ext acquisition bounds restarts
        model method_type X_batch L Min w).
  { intros X_batch HX.
    unfold fast_acquisition_optimization, fast_acquisition_optimization_spec.
    fold (candidates ext method_type bounds restarts).
    unfold bind at 1 5.
    destruct (candidates_inr ext method_type bounds restarts w)
      as (samples & w1 & -> & _ & _).
    unfold bind, lift, ret.
    assert (Hpen :
      penalized_acquisition samples acquisition bounds model X_batch L Min
      = penalized_acquisition samples acquisition bounds model None L Min)
      by (destruct HX as [-> | ->]; reflexivity).
    rewrite Hpen, penalized_acquisition_None.
    destruct (minimum_inr (neg (acquisition (X model)))) as [sm ->].
    { intros Hnil. apply (f_equal (@length R)) in Hnil.
      rewrite neg_length in Hnil.
      destruct (acquisition (X model)); [congruence | discriminate]. }
    simpl ebind. cbv beta iota. rewrite argmin_shift. reflexivity. }
  split; [apply Hempty; now left |].
  split; [apply Hempty; now right |].
  intros X_batch x w'.
  unfold fast_acquisition_optimization.
  fold (candidates ext method_type bounds restarts).
  unfold bind at 1.
  destruct (candidates_inr ext method_type bounds restarts w)
    as (samples & w1 & -> & _ & _).
  unfold bind, lift, ret.
  destruct (argmin (acquisition samples)) as [e | i] eqn:Hi; [discriminate |].
  destruct (getrow samples i) as [e | x0] eqn:Hx0; [discriminate |].
  destruct (scipy_minimize ext
              (objective acquisition bounds model X_batch L Min) x0 bounds)
    as [e | res] eqn:Hres; [discriminate |].
  intros H; inversion H; subst; clear H.
  destruct (argmin_spec _ _ Hi) as (vi & Hvi & Hmin & Hfirst).
  exists samples, i, x0, vi, res.
  repeat split; auto.
  unfold getrow in Hx0.
  destruct (nth_error samples i); [inversion Hx0; reflexivity | discriminate].
Qed.

Lemma step_acquisition_left (p : point) (ps : list point) :
  item p < 3 -> step_acquisition (p :: ps) = -1 :: step_acquisition ps.
Proof.
  intros H. unfold step_acquisition; simpl.
  destruct (Rlt_dec (item p) 3); [reflexivity | contradiction].
Qed.

Lemma step_acquisition_right (p : point) (ps : list point) :
  3 <= item p -> step_acquisition (p :: ps) = 0 :: step_acquisition ps.
Proof.
  intros H. unfold step_acquisition; simpl.
  destruct (Rlt_dec (item p) 3); [lra | reflexivity].
Qed.

Lemma step_acquisition_grid : step_acquisition [[0]; [1]] = [-1; -1].
Proof.
  rewrite !step_acquisition_left by (simpl; lra). reflexivity.
Qed.

Lemma step_acquisition_observed (v : R) :
  step_acquisition (X (flat_model v)) = [0].
Proof.
  simpl X. rewrite step_acquisition_right by (simpl; lra). reflexivity.
Qed.

Lemma argmin_tie (a : R) : argmin [a; a] = inr 0%nat.
Proof. simpl. destruct (Rlt_dec a a); [lra | reflexivity]. Qed.

Lemma argmin_second (a b : R) : b < a -> argmin [a; b] = inr 1%nat.
Proof. intros H. simpl. destruct (Rlt_dec b a); [reflexivity | lra]. Qed.

(** The hammer around the batch point 0, with L = 1, Min = 2 and the
    posterior N(2, 1): the radius is 0 and the spread 1, so the exclusion
    values at 0 and 1 are Phi(0) and Phi(1). *)
Lemma hammer_function_example :
  hammer_function [[0]; [1]] [0] 1 2 (flat_model 1)
  = [norm_cdf 0; norm_cdf 1].
Proof.
  unfold hammer_function, hammer_r_x0, hammer_s_x0, hammer_s, hammer_pred,
    hammer_m, dist, item; simpl.
  destruct (Rlt_dec 1 1e-16); [lra |].
  rewrite sqrt_1.
  replace ((0 - 0) * (0 - 0) + 0) with 0 by ring.
  replace ((1 - 0) * (1 - 0) + 0) with 1 by ring.
  rewrite sqrt_0, sqrt_1.
  repeat f_equal; field.
Qed.

(** The code on the example: the raw scores of 0 and 1 tie at -1, the
    first is the seed, and the refinement stays there. *)
Lemma fast_acquisition_optimization_example :
  fast_acquisition_optimization ext1 step_acquisition [(0, 1)] 2
    (flat_model 1) "brute" (Some [[0]]) (Some 1) (Some 2) world0
  = (inr [0], world0).
Proof.
  unfold fast_acquisition_optimization, bind, lift, ret.
  change (multigrid ext1 [(0, 1)] 2) with [[0]; [1]].
  cbn [String.eqb Ascii.eqb Bool.eqb].
  rewrite step_acquisition_grid, argmin_tie.
  cbn [getrow nth_error].
  unfold scipy_minimize, objective, penalized_acquisition.
  rewrite step_acquisition_observed.
  cbn [neg map minimum fold_left ebind penalize].
  reflexivity.
Qed.

(** The spec's optimizer on the example: the penalized scores are
    -Phi(0) and -Phi(1), the second is the smaller, so the seed is 1. *)
Lemma fast_acquisition_optimization_spec_example :
  fast_acquisition_optimization_spec ext1 step_acquisition [(0, 1)] 2
    (flat_model 1) "brute" (Some [[0]]) (Some 1) (Some 2) world0
  = (inr [1], world0).
Proof.
  unfold fast_acquisition_optimization_spec, bind, lift, ret.
  change (multigrid ext1 [(0, 1)] 2) with [[0]; [1]].
  cbn [String.eqb Ascii.eqb Bool.eqb].
  unfold penalized_acquisition at 1.
  rewrite step_acquisition_observed, step_acquisition_grid.
  cbn [neg map minimum fold_left ebind penalize].
  rewrite hammer_function_example.
  unfold multiply.
  cbn [neg map ebind combine fst snd].
  rewrite argmin_second.
  - cbn [getrow nth_error].
    unfold scipy_minimize, objective, penalized_acquisition.
    rewrite step_acquisition_observed.
    cbn [neg map minimum fold_left ebind penalize].
    reflexivity.
  - rewrite sign_abs.
    pose proof (norm_cdf_increasing 0 1 ltac:(lra)). lra.
Qed.

(** C1 fails as stated.  With the batch-so-far [[0]], L = 1 and Min = 2,
    the candidates 0 and 1 tie on the raw acquisition and the code seeds
    the refinement at 0, the batch point itself, while the arg-min of the
    penalized scores is 1: the seed selection does not account for the
    hammer penalization. *)
Lemma fast_seed_ignores_penalization :
  fast_acquisition_optimization ext1 step_acquisition [(0, 1)] 2
    (flat_model 1) "brute" (Some [[0]]) (Some 1) (Some 2) world0
  = (inr [0], world0)
  /\ fast_acquisition_optimization_spec ext1 step_acquisition [(0, 1)] 2
       (flat_model 1) "brute" (Some [[0]]) (Some 1) (Some 2) world0
     = (inr [1], world0)
  /\ fast_acquisition_optimization ext1 step_acquisition [(0, 1)] 2
       (flat_model 1) "brute" (Some [[0]]) (Some 1) (Some 2) world0
     <> fast_acquisition_optimization_spec ext1 step_acquisition [(0, 1)] 2
          (flat_model 1) "brute" (Some [[0]]) (Some 1) (Some 2) world0.
Proof.
  split; [exact fast_acquisition_optimization_example |].
  split; [exact fast_acquisition_optimization_spec_example |].
  rewrite fast_acquisition_optimization_example,
    fast_acquisition_optimization_spec_example.
  intros H. inversion H. lra.
Qed.

Lemma fast_acquisition_seed_witness :
  step_acquisition (X (flat_model 1)) <> [] /\
  fast_acquisition_optimization ext1 step_acquisition [(0, 1)] 2
    (flat_model 1) "brute" None None None world0
  = fast_acquisition_optimization_spec ext1 step_acquisition [(0, 1)] 2
      (flat_model 1) "brute" None None None world0.
Proof.
  assert (H : step_acquisition (X (flat_model 1)) <> [])
    by (rewrite step_acquisition_observed; discriminate).
  split; [exact H |].
  exact (proj1 (fast_acquisition_seed nat ext1 step_acquisition [(0, 1)]
                  2%nat (flat_model 1) "brute"%string None None world0 H)).
Defined.

(** ** Reasoning about computations *)

Lemma post_bind {RNG A B} (m : M RNG A) (k : A -> M RNG B)
    (P : A -> Prop) (Q : B -> Prop) :
  post m P -> (forall a, P a -> post (k a) Q) -> post (bind m k) Q.
Proof.
  intros Hm Hk w b w'. unfold bind.
  destruct (m w) as [[e | a] w1] eqn:Em; [discriminate |].
  intros H. eapply Hk; eauto.
Qed.

Lemma post_ret {RNG A} (a : A) (P : A -> Prop) :
  P a -> post (@ret RNG A a) P.
Proof. intros H w b w' E. inversion E; subst. exact H. Qed.

Lemma post_lift {RNG A} (r : exn + A) (P : A -> Prop) :
  (forall a, r = inr a -> P a) -> post (@lift RNG A r) P.
Proof. intros H w b w' E. inversion E; subst. now apply H. Qed.

Lemma post_draw {RNG A} (f : RNG -> A * RNG) (P : A -> Prop) :
  (forall g, P (fst (f g))) -> post (draw f) P.
Proof.
  intros H w b w'. unfold draw. specialize (H (rng w)).
  destruct (f (rng w)) as [a g]. intros E. inversion E; subst. exact H.
Qed.

Lemma post_weaken {RNG A} (m : M RNG A) (P Q : A -> Prop) :
  post m P -> (forall a, P a -> Q a) -> post m Q.
Proof. intros Hm HPQ w a w' E. eauto. Qed.

Lemma total_bind {RNG A B} (m : M RNG A) (k : A -> M RNG B)
    (P : A -> Prop) (Q : B -> Prop) :
  total m P -> (forall a, P a -> total (k a) Q) -> total (bind m k) Q.
Proof.
  intros Hm Hk w. unfold bind.
  destruct (Hm w) as (a & w1 & -> & Ha).
  exact (Hk a Ha w1).
Qed.

Lemma total_ret {RNG A} (a : A) (P : A -> Prop) :
  P a -> total (@ret RNG A a) P.
Proof. intros H w. exists a, w. split; [reflexivity | exact H]. Qed.

Lemma total_lift {RNG A} (r : exn + A) (a : A) (P : A -> Prop) :
  r = inr a -> P a -> total (@lift RNG A r) P.
Proof. intros -> H w. exists a, w. split; [reflexivity | exact H]. Qed.

Lemma total_draw {RNG A} (f : RNG -> A * RNG) (P : A -> Prop) :
  (forall g, P (fst (f g))) -> total (draw f) P.
Proof.
  intros H w. unfold draw. specialize (H (rng w)).
  destruct (f (rng w)) as [a g]. eauto.
Qed.

Lemma total_weaken {RNG A} (m : M RNG A) (P Q : A -> Prop) :
  total m P -> (forall a, P a -> Q a) -> total m Q.
Proof.
  intros Hm HPQ w. destruct (Hm w) as (a & w' & E & Ha). eauto.
Qed.

(** ** Bounds containment *)

Section Containment.
Context {RNG : Type} (ext : Externals RNG) (bounds : bounds_t).
Hypothesis Hmin : minimizer_in_bounds ext bounds.

Lemma scipy_minimize_in_bounds (f : point -> exn + R) (x0 : point)
    (res : OptimizeResult) :
  scipy_minimize ext f x0 bounds = inr res -> in_bounds bounds (opt_x res).
Proof.
  unfold scipy_minimize. destruct (f x0); [discriminate |].
  intros H; inversion H; subst. apply Hmin.
Qed.

Lemma full_loop_in_bounds (f : point -> exn + R) (samples : list point)
    (ks : list nat) (rs : list OptimizeResult) :
  full_loop ext f bounds samples ks = inr rs ->
  Forall (in_bounds bounds) (map opt_x rs).
Proof.
  revert rs. induction ks as [| k ks IH]; intros rs; simpl.
  - intros H; inversion H; subst. constructor.
  - destruct (getrow samples k) as [e | x0]; [discriminate |]. simpl.
    destruct (scipy_minimize ext f x0 bounds) as [e | res] eqn:Eres;
      [discriminate |]. simpl.
    destruct (full_loop ext f bounds samples ks) as [e | rs'];
      [discriminate |]. simpl.
    intros H; inversion H; subst. simpl. constructor.
    + eapply scipy_minimize_in_bounds; eauto.
    + now apply IH.
Qed.

Lemma fast_acquisition_optimization_in_bounds (acquisition : Acquisition)
    (restarts : nat) (model : Model) (method_type : string)
    (X_batch : option (list point)) (L Min : option R) :
  post (fast_acquisition_optimization ext acquisition bounds restarts model
          method_type X_batch L Min) (in_bounds bounds).
Proof.
  unfold fast_acquisition_optimization.
  eapply post_bind with (P := fun _ => True); [intros w a w' _; exact I |].
  intros samples _.
  eapply post_bind with (P := fun _ => True); [intros w a w' _; exact I |].
  intros i _.
  eapply post_bind with (P := fun _ => True); [intros w a w' _; exact I |].
  intros x0 _.
  eapply post_bind; [apply post_lift; intros res Hres; exact Hres |].
  intros res Hres. cbv beta in Hres. apply post_ret.
  eapply scipy_minimize_in_bounds; eauto.
Qed.

Lemma full_acquisition_optimization_in_bounds (acquisition : Acquisition)
    (restarts : nat) (model : Model) (method_type : string)
    (X_batch : option (list point)) (L Min : option R) :
  post (full_acquisition_optimization ext acquisition bounds restarts model
          method_type X_batch L Min) (in_bounds bounds).
Proof.
  unfold full_acquisition_optimization.
  eapply post_bind with (P := fun _ => True); [intros w a w' _; exact I |].
  intros samples _.
  eapply post_bind; [apply post_lift; intros rs Hrs; exact Hrs |].
  intros rs Hrs. cbv beta in Hrs.
  eapply post_bind with (P := fun _ => True); [intros w a w' _; exact I |].
  intros i _. apply post_lift. intros x Hx.
  apply getrow_In in Hx.
  pose proof (full_loop_in_bounds _ _ _ _ Hrs) as Hall.
  rewrite Forall_forall in Hall. now apply Hall.
Qed.

Lemma optimize_acquisition_in_bounds (acquisition : Acquisition)
    (restarts : nat) (method : string) (model : Model)
    (X_batch : option (list point)) (L Min : option R) :
  post (optimize_acquisition ext acquisition bounds restarts method model
          X_batch L Min) (in_bounds bounds).
Proof.
  unfold optimize_acquisition.
  repeat match goal with
         | |- context [String.eqb ?a ?b] => destruct (String.eqb a b)
         end;
    try apply full_acquisition_optimization_in_bounds;
    try apply fast_acquisition_optimization_in_bounds.
  intros w a w' H. discriminate H.
Qed.

Lemma adaptive_loop_in_bounds (acquisition : Acquisition) (restarts : nat)
    (method : string) (model : Model) (L Min : option R) (fuel : nat) :
  forall X_batch,
    Forall (in_bounds bounds) X_batch ->
    post (adaptive_loop ext acquisition bounds restarts method model L Min
            fuel X_batch) (Forall (in_bounds bounds)).
Proof.
  induction fuel as [| fuel IH]; intros X_batch HX; simpl.
  - now apply post_ret.
  - eapply post_bind; [apply optimize_acquisition_in_bounds |].
    intros x Hx. apply IH. apply Forall_app. split; [exact HX | now constructor].
Qed.

Lemma hybrid_loop_in_bounds (acqu_name : string) (acquisition_par : R)
    (restarts : nat) (method : string) (model : Model) (kernel : Kernel)
    (fuel : nat) :
  forall Xw Yw X_new X_batch,
    Forall (in_bounds bounds) X_batch ->
    post (hybrid_loop ext acqu_name acquisition_par bounds restarts method
            model kernel fuel Xw Yw X_new X_batch)
         (Forall (in_bounds bounds)).
Proof.
  induction fuel as [| fuel IH]; intros Xw Yw X_new X_batch HX; simpl.
  - now apply post_ret.
  - intros w b w'.
    destruct (BayesianOptimization ext bounds (Xw ++ [X_new])
                (Yw ++ fst (predict model [X_new])) kernel acqu_name
                acquisition_par w) as [[e | batchBO] w1].
    + destruct e; try discriminate.
      unfold bind, print, ret. intros H; inversion H; subst. exact HX.
    + revert w1 b w'.
      change (post
        (X_new0 <- start_optimization ext batchBO bounds method restarts ;;
         hybrid_loop ext acqu_name acquisition_par bounds restarts method
           model kernel fuel (Xw ++ [X_new])
           (Yw ++ fst (predict model [X_new])) X_new0
           (X_batch ++ [X_new0])) (Forall (in_bounds bounds))).
      eapply post_bind; [apply optimize_acquisition_in_bounds |].
      intros x Hx. apply IH.
      apply Forall_app. split; [exact HX | now constructor].
Qed.

Section RandomFill.
Hypothesis Hsam : sampler_in_bounds ext bounds.

Lemma random_loop_in_bounds (fuel : nat) :
  forall X_batch,
    Forall (in_bounds bounds) X_batch ->
    post (random_loop ext bounds fuel X_batch) (Forall (in_bounds bounds)).
Proof.
  induction fuel as [| fuel IH]; intros X_batch HX; simpl.
  - now apply post_ret.
  - eapply post_bind; [apply post_draw; intros g; apply Hsam |].
    intros new_sample Hnew. apply IH. apply Forall_app. now split.
Qed.

End RandomFill.
End Containment.

(** C4.  When the local minimizer and the uniform sampler keep inside the
    box they are given, every point of the batch returned by the
    random-fill, the penalization and the surrogate-refit strategy lies,
    coordinate by coordinate, between the lower and the upper bound.  (The
    weighted-clustering strategy is given no bounds.) *)
Theorem batch_strategies_in_bounds :
  forall (RNG : Type) (ext : Externals RNG) (bounds : bounds_t),
    minimizer_in_bounds ext bounds ->
    sampler_in_bounds ext bounds ->
    forall (acquisition : Acquisition) (restarts : nat) (method : string)
           (model : Model) (n_inbatch : nat),
      post (random_batch_optimization ext acquisition bounds restarts method
              model n_inbatch) (Forall (in_bounds bounds))
      /\ (forall alpha_L alpha_Min : R,
            post (adaptive_batch_optimization ext acquisition bounds restarts
                    method model n_inbatch alpha_L alpha_Min)
                 (Forall (in_bounds bounds)))
      /\ (forall (acqu_name : string) (acquisition_par : R),
            post (hybrid_batch_optimization ext acqu_name acquisition_par
                    acquisition bounds restarts method model n_inbatch)
                 (Forall (in_bounds bounds))).
Proof.
  intros RNG ext bounds Hmin Hsam acquisition restarts method model n_inbatch.
  repeat split.
  - unfold random_batch_optimization.
    eapply post_bind; [now apply optimize_acquisition_in_bounds |].
    intros x Hx. apply random_loop_in_bounds; auto.
  - intros alpha_L alpha_Min. unfold adaptive_batch_optimization.
    eapply post_bind; [now apply optimize_acquisition_in_bounds |].
    intros x Hx.
    eapply post_bind with (P := fun _ => True); [intros w a w' _; exact I |].
    intros LMin _. apply adaptive_loop_in_bounds; auto.
  - intros acqu_name acquisition_par. unfold hybrid_batch_optimization.
    eapply post_bind; [now apply optimize_acquisition_in_bounds |].
    intros x Hx. apply hybrid_loop_in_bounds; auto.
Qed.

Lemma corner_in_bounds : in_bounds [(0, 1)] (corner [(0, 1)]).
Proof. repeat constructor; simpl; lra. Qed.

Lemma example_minimizer_in_bounds (grid : bounds_t -> nat -> list point)
    (ctor : exn + BO) :
  minimizer_in_bounds (example_ext grid to_corner ctor) [(0, 1)].
Proof. intros f x0. exact corner_in_bounds. Qed.

Lemma example_sampler_in_bounds (grid : bounds_t -> nat -> list point)
    (minim : (point -> R) -> point -> bounds_t -> OptimizeResult)
    (ctor : exn + BO) :
  sampler_in_bounds (example_ext grid minim ctor) [(0, 1)].
Proof.
  intros n g. simpl. apply Forall_forall. intros p Hp.
  apply repeat_spec in Hp. subst. exact corner_in_bounds.
Qed.

Lemma batch_strategies_in_bounds_witness :
  post (random_batch_optimization
          (example_ext grid_corner to_corner (inl LinAlgError))
          step_acquisition [(0, 1)] 2 "fast_random" (flat_model 1) 3)
       (Forall (in_bounds [(0, 1)]))
  /\ (forall alpha_L alpha_Min : R,
        post (adaptive_batch_optimization
                (example_ext grid_corner to_corner (inl LinAlgError))
                step_acquisition [(0, 1)] 2 "fast_random" (flat_model 1) 3
                alpha_L alpha_Min)
             (Forall (in_bounds [(0, 1)])))
  /\ (forall (acqu_name : string) (acquisition_par : R),
        post (hybrid_batch_optimization
                (example_ext grid_corner to_corner (inl LinAlgError))
                acqu_name acquisition_par step_acquisition [(0, 1)] 2
                "fast_random" (flat_model 1) 3)
             (Forall (in_bounds [(0, 1)]))).
Proof.
  apply (batch_strategies_in_bounds nat
           (example_ext grid_corner to_corner (inl LinAlgError)) [(0, 1)]).
  - apply example_minimizer_in_bounds.
  - apply example_sampler_in_bounds.
Defined.

(** ** Valid inputs and termination with a result *)

Lemma acquisition_observed (a : Acquisition) (model : Model) :
  acquisition_contract a -> X model <> [] -> a (X model) <> [].
Proof.
  intros Ha HX Hnil. apply (f_equal (@length R)) in Hnil.
  rewrite Ha in Hnil. destruct (X model); [congruence | discriminate].
Qed.

Lemma objective_returns (acquisition : Acquisition) (bounds : bounds_t)
    (model : Model) (X_batch : option (list point)) (L Min : option R)
    (p : point) :
  acquisition (X model) <> [] ->
  penalty_ready X_batch L Min ->
  exists v, objective acquisition bounds model X_batch L Min p = inr v.
Proof.
  intros Hobs Hready. unfold objective, penalized_acquisition.
  destruct (minimum_inr (neg (acquisition (X model)))) as [sm ->].
  { intros Hnil. apply (f_equal (@length R)) in Hnil.
    rewrite neg_length in Hnil.
    destruct (acquisition (X model)); [congruence | discriminate]. }
  simpl ebind. cbv beta iota.
  destruct X_batch as [[| x0 rows] |]; simpl.
  - eauto.
  - destruct Hready as [HL HM].
    destruct L as [l |]; [| congruence].
    destruct Min as [mn |]; [| congruence].
    rewrite penalize_fold. simpl. eauto.
  - eauto.
Qed.

Section Returns.
Context {RNG : Type} (ext : Externals RNG) (bounds : bounds_t).
Hypothesis Hsam : sampler_count ext bounds.
Hypothesis Hgrid : grid_count ext bounds.

Lemma candidates_count (method_type : string) (n : nat) :
  total (candidates ext method_type bounds n) (fun s => length s = n).
Proof.
  unfold candidates. destruct (String.eqb method_type "random").
  - apply total_draw. intros g. apply Hsam.
  - apply total_ret. apply Hgrid.
Qed.

Lemma scipy_minimize_returns (f : point -> exn + R) (x0 : point) :
  (forall p, exists v, f p = inr v) ->
  exists res, scipy_minimize ext f x0 bounds = inr res.
Proof.
  intros Hf. unfold scipy_minimize.
  destruct (Hf x0) as [v ->]. eauto.
Qed.

Lemma full_loop_returns (f : point -> exn + R) (samples : list point)
    (ks : list nat) :
  (forall p, exists v, f p = inr v) ->
  (forall k, In k ks -> (k < length samples)%nat) ->
  exists rs,
    full_loop ext f bounds samples ks = inr rs /\ length rs = length ks.
Proof.
  intros Hf. induction ks as [| k ks IH]; intros Hks; simpl.
  - exists []. auto.
  - unfold ebind.
    destruct (getrow_lt samples k) as [x0 ->]; [apply Hks; now left |].
    destruct (scipy_minimize_returns f x0 Hf) as [res ->].
    destruct IH as (rs & -> & Hlen); [intros j Hj; apply Hks; now right |].
    exists (res :: rs). simpl. auto.
Qed.

Section SinglePoint.
Variables (acquisition : Acquisition) (restarts : nat) (model : Model)
          (X_batch : option (list point)) (L Min : option R).
Hypothesis Hacq : acquisition_contract acquisition.
Hypothesis HX : X model <> [].
Hypothesis Hready : penalty_ready X_batch L Min.
Hypothesis Hrestarts : (1 <= restarts)%nat.

Lemma fast_acquisition_optimization_returns (method_type : string) :
  total (fast_acquisition_optimization ext acquisition bounds restarts model
           method_type X_batch L Min) (fun _ => True).
Proof.
  intros w. unfold fast_acquisition_optimization.
  fold (candidates ext method_type bounds restarts).
  unfold bind at 1.
  destruct (candidates_count method_type restarts w)
    as (samples & w1 & -> & Hlen).
  unfold bind, lift, ret.
  destruct (argmin_inr (acquisition samples)) as [i Hi].
  { intros Hnil. apply (f_equal (@length R)) in Hnil.
    rewrite Hacq, Hlen in Hnil. simpl in Hnil. lia. }
  rewrite Hi.
  destruct (getrow_lt samples i) as [x0 ->].
  { apply argmin_lt in Hi. now rewrite Hacq in Hi. }
  destruct (scipy_minimize_returns
              (objective acquisition bounds model X_batch L Min) x0)
    as [res ->].
  { intros p. apply objective_returns;
      [now apply acquisition_observed | exact Hready]. }
  eauto.
Qed.

Lemma full_acquisition_optimization_returns (method_type : string) :
  total (full_acquisition_optimization ext acquisition bounds restarts model
           method_type X_batch L Min) (fun _ => True).
Proof.
  intros w. unfold full_acquisition_optimization.
  fold (candidates ext method_type bounds restarts).
  unfold bind at 1.
  destruct (candidates_count method_type restarts w)
    as (samples & w1 & -> & Hlen).
  unfold bind, lift, ret.
  destruct (full_loop_returns
              (objective acquisition bounds model X_batch L Min) samples
              (seq 0 restarts)) as (rs & -> & Hrs).
  { intros p. apply objective_returns;
      [now apply acquisition_observed | exact Hready]. }
  { intros k Hk. apply in_seq in Hk. lia. }
  rewrite length_seq in Hrs.
  destruct (argmin_inr (map opt_fun rs)) as [i Hi].
  { intros Hnil. apply (f_equal (@length R)) in Hnil.
    rewrite length_map, Hrs in Hnil. simpl in Hnil. lia. }
  rewrite Hi.
  destruct (getrow_lt (map opt_x rs) i) as [x ->].
  { apply argmin_lt in Hi. now rewrite length_map in *. }
  eauto.
Qed.

Lemma optimize_acquisition_returns (method : string) :
  In method methods ->
  total (optimize_acquisition ext acquisition bounds restarts method model
           X_batch L Min) (fun _ => True).
Proof.
  unfold methods. simpl.
  intros [<- | [<- | [<- | [<- | []]]]]; unfold optimize_acquisition; simpl.
  - apply full_acquisition_optimization_returns.
  - apply full_acquisition_optimization_returns.
  - apply fast_acquisition_optimization_returns.
  - apply fast_acquisition_optimization_returns.
Qed.

End SinglePoint.
End Returns.

(** ** The batch loops *)

Lemma total_post {RNG A} (m : M RNG A) (P Q : A -> Prop) :
  total m P -> post m Q -> total m (fun a => P a /\ Q a).
Proof.
  intros Ht Hp w. destruct (Ht w) as (a & w' & E & Ha).
  exists a, w'. repeat split; auto. eapply Hp; eauto.
Qed.

(** One iteration of the refit loop whose constructor raises the
    singular-covariance error: the message is printed and the batch
    collected so far is the result. *)
Lemma hybrid_loop_stop {RNG} (ext : Externals RNG) (acqu_name : string)
    (acquisition_par : R) (bounds : bounds_t) (restarts : nat)
    (method : string) (model : Model) (kernel : Kernel) (fuel : nat)
    (Xw : list point) (Yw : list R) (X_new : point) (X_batch : list point)
    (w w1 : World RNG) :
  BayesianOptimization ext bounds (Xw ++ [X_new])
    (Yw ++ fst (predict model [X_new])) kernel acqu_name acquisition_par w
  = (inl LinAlgError, w1) ->
  hybrid_loop ext acqu_name acquisition_par bounds restarts method model
    kernel (S fuel) Xw Yw X_new X_batch w
  = (inr X_batch, mkWorld (rng w1) (stdout w1 ++ [stop_message])).
Proof. intros H. simpl. rewrite H. reflexivity. Qed.

Section Loops.
Context {RNG : Type} (ext : Externals RNG) (bounds : bounds_t).
Hypothesis Hsam : sampler_count ext bounds.
Hypothesis Hgrid : grid_count ext bounds.
Variables (restarts : nat) (method : string).
Hypothesis Hrestarts : (1 <= restarts)%nat.
Hypothesis Hmethod : In method methods.

Lemma estimate_L_returns (model : Model) (alpha : R) :
  gradient_contract model ->
  total (estimate_L ext model bounds alpha) (fun L => 0.1 <= L).
Proof using Hsam.
  clear Hgrid Hrestarts Hmethod.
  intros Hgrad w.
  destruct (estimate_L ext model bounds alpha w) as [[e | L] w'] eqn:E.
  - exfalso. revert E. unfold estimate_L, bind, draw, lift, ret.
    pose proof (Hsam 5%nat (rng w)) as Hlen.
    destruct (samples_multidimensional_uniform ext bounds 5 (rng w))
      as [samples g]. simpl in Hlen.
    destruct (argmin_inr (df samples model alpha)) as [i Hi].
    { intros Hnil. apply (f_equal (@length R)) in Hnil.
      rewrite df_length, Hgrad, Hlen in Hnil. discriminate. }
    rewrite Hi.
    destruct (getrow_lt samples i) as [x0 ->]; [| discriminate].
    apply argmin_lt in Hi. now rewrite df_length, Hgrad in Hi.
  - exists L, w'. split; [reflexivity |]. eapply estimate_L_ge; eauto.
Qed.

Lemma random_loop_count (fuel : nat) :
  forall X_batch,
    total (random_loop ext bounds fuel X_batch)
          (fun b => length b = (length X_batch + fuel)%nat).
Proof using Hsam.
  clear Hgrid Hrestarts Hmethod.
  induction fuel as [| fuel IH]; intros X_batch; simpl.
  - apply total_ret. lia.
  - eapply total_bind with (P := fun s => length s = 1%nat);
      [apply total_draw; intros g; apply (Hsam 1%nat g) |].
    intros new_sample Hnew.
    eapply total_weaken; [apply IH |].
    intros b Hb. rewrite Hb, length_app, Hnew. lia.
Qed.

Lemma adaptive_loop_count (acquisition : Acquisition) (model : Model)
    (l mn : R) (fuel : nat) :
  acquisition_contract acquisition ->
  X model <> [] ->
  forall X_batch,
    total (adaptive_loop ext acquisition bounds restarts method model
             (Some l) (Some mn) fuel X_batch)
          (fun b => length b = (length X_batch + fuel)%nat).
Proof.
  intros Hacq HX.
  induction fuel as [| fuel IH]; intros X_batch; simpl.
  - apply total_ret. lia.
  - eapply total_bind.
    + apply optimize_acquisition_returns; auto.
      destruct X_batch; simpl; [exact I | split; discriminate].
    + intros x _. eapply total_weaken; [apply IH |].
      intros b Hb. rewrite Hb, length_app. simpl. lia.
Qed.

Lemma hybrid_loop_count (acqu_name : string) (acquisition_par : R)
    (model : Model) (kernel : Kernel) (fuel : nat) :
  refit_contract ext bounds ->
  forall Xw Yw X_new X_batch,
    total (hybrid_loop ext acqu_name acquisition_par bounds restarts method
             model kernel fuel Xw Yw X_new X_batch)
          (fun b => (length X_batch <= length b <= length X_batch + fuel)%nat).
Proof.
  intros Hrefit.
  induction fuel as [| fuel IH]; intros Xw Yw X_new X_batch; simpl.
  - apply total_ret. lia.
  - intros w.
    pose proof (Hrefit (Xw ++ [X_new]) (Yw ++ fst (predict model [X_new]))
                  kernel acqu_name acquisition_par w) as Hc.
    destruct (BayesianOptimization ext bounds (Xw ++ [X_new])
                (Yw ++ fst (predict model [X_new])) kernel acqu_name
                acquisition_par w) as [[e | batchBO] w1].
    + subst e. unfold bind, print, ret. eexists. eexists.
      split; [reflexivity | lia].
    + destruct Hc as [Hacq HX].
      assert (Hk : total
        (X_new0 <- start_optimization ext batchBO bounds method restarts ;;
         hybrid_loop ext acqu_name acquisition_par bounds restarts method
           model kernel fuel (Xw ++ [X_new])
           (Yw ++ fst (predict model [X_new])) X_new0
           (X_batch ++ [X_new0]))
        (fun b => (length X_batch <= length b
                   <= length X_batch + S fuel)%nat)).
      { eapply total_bind.
        - apply optimize_acquisition_returns; simpl; auto.
        - intros x _. eapply total_weaken; [apply IH |].
          intros b Hb. rewrite length_app in Hb. simpl in Hb. lia. }
      exact (Hk w1).
Qed.

Lemma hybrid_loop_full (acqu_name : string) (acquisition_par : R)
    (model : Model) (kernel : Kernel) (fuel : nat) :
  never_singular ext bounds ->
  forall Xw Yw X_new X_batch,
    post (hybrid_loop ext acqu_name acquisition_par bounds restarts method
            model kernel fuel Xw Yw X_new X_batch)
         (fun b => length b = (length X_batch + fuel)%nat).
Proof.
  intros Hnever.
  induction fuel as [| fuel IH]; intros Xw Yw X_new X_batch; simpl.
  - apply post_ret. lia.
  - intros w b w'.
    pose proof (Hnever (Xw ++ [X_new]) (Yw ++ fst (predict model [X_new]))
                  kernel acqu_name acquisition_par w) as Hc.
    destruct (BayesianOptimization ext bounds (Xw ++ [X_new])
                (Yw ++ fst (predict model [X_new])) kernel acqu_name
                acquisition_par w) as [[e | batchBO] w1].
    + destruct e; try discriminate. simpl in Hc. congruence.
    + clear Hc. revert w1 b w'.
      change (post
        (X_new0 <- start_optimization ext batchBO bounds method restarts ;;
         hybrid_loop ext acqu_name acquisition_par bounds restarts method
           model kernel fuel (Xw ++ [X_new])
           (Yw ++ fst (predict model [X_new])) X_new0
           (X_batch ++ [X_new0]))
        (fun b => length b = (length X_batch + S fuel)%nat)).
      eapply post_bind with (P := fun _ => True);
        [intros w0 a w0' _; exact I |].
      intros x _. eapply post_weaken; [apply IH |].
      intros b Hb. rewrite Hb, length_app. simpl. lia.
Qed.

End Loops.

(** ** Weighted clustering *)

Lemma insert_unique_not_nil (k : Z) (l : list Z) : insert_unique k l <> [].
Proof.
  destruct l as [| h t]; simpl; [discriminate |].
  destruct (Z.ltb k h); [discriminate |].
  destruct (Z.eqb k h); discriminate.
Qed.

Lemma unique_not_nil (l : list Z) : l <> [] -> unique l <> [].
Proof.
  destruct l as [| k l]; [congruence | intros _].
  simpl. apply insert_unique_not_nil.
Qed.

Lemma select_length {A} (mask : list bool) (a : list A) :
  length mask = length a ->
  length (select mask a) = length (filter (fun b => b) mask).
Proof.
  unfold select. revert a.
  induction mask as [| b mask IH]; intros [| u a] H; simpl in *;
    try discriminate; [reflexivity |].
  injection H as H. specialize (IH a H).
  destruct b; simpl; rewrite ?length_map in *; simpl; auto.
Qed.

Lemma assign_returns (mask : list bool) (a w : list R) :
  length mask = length a ->
  length w = length (filter (fun b => b) mask) ->
  exists r, assign mask a w = inr r /\ length r = length a.
Proof.
  revert a w.
  induction mask as [| b mask IH]; intros [| u a] w Hm Hw; simpl in *;
    try discriminate.
  - destruct w; [eauto | discriminate].
  - injection Hm as Hm. destruct b; simpl in *.
    + destruct w as [| v w]; [discriminate |]. injection Hw as Hw.
      destruct (IH a w Hm Hw) as (r & -> & Hr). simpl.
      exists (v :: r). simpl. auto.
    + destruct (IH a w Hm Hw) as (r & -> & Hr). simpl.
      exists (u :: r). simpl. auto.
Qed.

Section Clustering.
Context {RNG : Type} (ext : Externals RNG) (model : Model) (n_inbatch : nat).
Hypothesis Hkernel : kernel_contract ext model.
Hypothesis Hkmeans : kmeans_contract ext n_inbatch.

Lemma compute_batch_weigths_returns (x : list point) :
  exists w, compute_batch_weigths ext x model = inr w /\ length w = length x.
Proof.
  unfold compute_batch_weigths, compute_w.
  destruct (Hkernel x) as (Hlen & Sigma12 & ->). simpl.
  eexists. split; [reflexivity |].
  now rewrite length_map, length_seq.
Qed.

Lemma sm_loop_returns (batch_labels : list Z) (ks : list Z) :
  length batch_labels = length (X model) ->
  forall weights X_batch,
    length weights = length (X model) ->
    total (sm_loop ext model n_inbatch batch_labels ks weights X_batch)
          (fun r => (ks = [] /\ r = X_batch) \/
                    (ks <> [] /\ exists c, r = Some c /\ length c = n_inbatch)).
Proof.
  intros Hlabels.
  induction ks as [| k ks IH]; intros weights X_batch Hweights; simpl.
  - apply total_ret. now left.
  - set (mask := map (Z.eqb k) batch_labels).
    assert (Hmask : length mask = length (X model))
      by (unfold mask; now rewrite length_map).
    destruct (compute_batch_weigths_returns (select mask (X model)))
      as (w & Hw & Hwlen).
    rewrite select_length in Hwlen by exact Hmask.
    destruct (assign_returns mask weights w) as (weights' & Ha & Hlen');
      [congruence | exact Hwlen |].
    eapply total_bind; [eapply total_lift with (P := fun r => r = w); eauto |].
    intros ? ->.
    eapply total_bind;
      [eapply total_lift with (P := fun r => r = weights'); eauto |].
    intros ? ->.
    eapply total_bind; [apply Hkmeans |].
    intros c Hc. cbv beta in Hc.
    eapply total_weaken; [apply IH; congruence |].
    intros r [[-> ->] | [Hne Hr]]; right; (split; [discriminate |]); eauto.
Qed.

Lemma sm_batch_optimization_returns (batch_labels : list Z) :
  length batch_labels = length (X model) ->
  X model <> [] ->
  (1 <= n_inbatch)%nat ->
  total (sm_batch_optimization ext model n_inbatch batch_labels)
        (fun b => length b = n_inbatch).
Proof.
  intros Hlabels HX Hn. unfold sm_batch_optimization.
  eapply total_bind with (P := fun _ => True).
  { destruct (length (X model) <? n_inbatch)%nat.
    - intros w. unfold print. eauto.
    - now apply total_ret. }
  intros _ _.
  eapply total_bind.
  { apply sm_loop_returns; [exact Hlabels | apply repeat_length]. }
  intros r [[Hnil _] | [_ (c & -> & Hc)]].
  - exfalso. revert Hnil. apply unique_not_nil.
    intros ->. destruct (X model); [congruence | discriminate].
  - destruct c as [| p c]; [simpl in Hc; lia |].
    eapply total_lift; [reflexivity | exact Hc].
Qed.

End Clustering.

(** C2, on the code.  With one observed point and a request for two
    clusters the guard of [sm_batch_optimization] prints its message and
    nothing more: the weights are computed, the k-means is run with two
    clusters and its two centroids are returned; no error reaches the
    caller. *)
Example sm_batch_optimization_small_pool :
  sm_batch_optimization (example_ext grid_corner stay (inl LinAlgError))
    (flat_model 1) 2 [0%Z] world0
  = (inr [[5]; [5]], mkWorld 0%nat [size_message]).
Proof. reflexivity. Qed.

(** ** Exceptions that cannot arise *)

Lemma never_bind {RNG A B} (m : M RNG A) (k : A -> M RNG B) (e : exn) :
  never m e -> (forall a, never (k a) e) -> never (bind m k) e.
Proof.
  intros Hm Hk w. unfold bind. specialize (Hm w).
  destruct (m w) as [[e' | a] w1]; simpl in *; [| apply Hk].
  intros H. apply Hm. inversion H. reflexivity.
Qed.

Lemma never_lift {RNG A} (r : exn + A) (e : exn) :
  r <> inl e -> never (@lift RNG A r) e.
Proof. intros H w. exact H. Qed.

Lemma never_ret {RNG A} (a : A) (e : exn) : never (@ret RNG A a) e.
Proof. intros w. discriminate. Qed.

Lemma never_draw {RNG A} (f : RNG -> A * RNG) (e : exn) : never (draw f) e.
Proof. intros w. unfold draw. destruct (f (rng w)). discriminate. Qed.

Lemma argmin_not_LinAlgError (l : list R) : argmin l <> inl LinAlgError.
Proof. destruct l; discriminate. Qed.

Lemma getrow_not_LinAlgError {A} (a : list A) (i : nat) :
  getrow a i <> inl LinAlgError.
Proof. unfold getrow. destruct (nth_error a i); discriminate. Qed.

Lemma penalize_not_LinAlgError (x : list point) (model : Model)
    (L Min : option R) (rows : list point) (v : list R) :
  penalize x model L Min rows v <> inl LinAlgError.
Proof.
  revert v. induction rows as [| x0 rows IH]; intros v; simpl;
    [discriminate |].
  destruct L; [| discriminate]. destruct Min; [apply IH | discriminate].
Qed.

Lemma objective_not_LinAlgError (acquisition : Acquisition)
    (bounds : bounds_t) (model : Model) (X_batch : option (list point))
    (L Min : option R) (p : point) :
  objective acquisition bounds model X_batch L Min p <> inl LinAlgError.
Proof.
  unfold objective, penalized_acquisition.
  destruct (acquisition (X model)) as [| a rest]; simpl; [discriminate |].
  destruct X_batch as [rows |]; simpl; [| discriminate].
  pose proof (penalize_not_LinAlgError [p] model L Min rows
    (map (fun a0 => a0 -
            sign (fold_left (fun m u => if Rlt_dec u m then u else m)
                    (neg rest) (- a)) *
            Rabs (fold_left (fun m u => if Rlt_dec u m then u else m)
                    (neg rest) (- a)))
         (neg (acquisition [p])))) as H.
  destruct (penalize [p] model L Min rows _) as [e | v]; simpl;
    [congruence | discriminate].
Qed.

Section NoLinAlgError.
Context {RNG : Type} (ext : Externals RNG).

Lemma scipy_minimize_not_LinAlgError (acquisition : Acquisition)
    (bounds : bounds_t) (model : Model) (X_batch : option (list point))
    (L Min : option R) (x0 : point) :
  scipy_minimize ext (objective acquisition bounds model X_batch L Min)
    x0 bounds <> inl LinAlgError.
Proof.
  unfold scipy_minimize.
  pose proof (objective_not_LinAlgError acquisition bounds model X_batch
                L Min x0) as H.
  destruct (objective acquisition bounds model X_batch L Min x0);
    [congruence | discriminate].
Qed.

Lemma full_loop_not_LinAlgError (acquisition : Acquisition)
    (bounds : bounds_t) (model : Model) (X_batch : option (list point))
    (L Min : option R) (samples : list point) (ks : list nat) :
  full_loop ext (objective acquisition bounds model X_batch L Min) bounds
    samples ks <> inl LinAlgError.
Proof.
  induction ks as [| k ks IH]; simpl; [discriminate |].
  pose proof (getrow_not_LinAlgError samples k) as Hg.
  destruct (getrow samples k) as [e | x0]; simpl; [congruence |].
  pose proof (scipy_minimize_not_LinAlgError acquisition bounds model
                X_batch L Min x0) as Hs.
  destruct (scipy_minimize ext _ x0 bounds) as [e | res]; simpl;
    [congruence |].
  destruct (full_loop ext _ bounds samples ks) as [e | rs]; simpl;
    [congruence | discriminate].
Qed.

Lemma optimize_acquisition_not_LinAlgError (acquisition : Acquisition)
    (bounds : bounds_t) (restarts : nat) (method : string) (model : Model)
    (X_batch : option (list point)) (L Min : option R) :
  never (optimize_acquisition ext acquisition bounds restarts method model
           X_batch L Min) LinAlgError.
Proof.
  assert (Hcand : forall mt,
    never (if String.eqb mt "random"
           then draw (samples_multidimensional_uniform ext bounds restarts)
           else ret (multigrid ext bounds restarts)) LinAlgError).
  { intros mt. destruct (String.eqb mt "random");
      [apply never_draw | apply never_ret]. }
  assert (Hfull : forall mt,
    never (full_acquisition_optimization ext acquisition bounds restarts
             model mt X_batch L Min) LinAlgError).
  { intros mt. unfold full_acquisition_optimization.
    apply never_bind; [apply Hcand |]. intros samples.
    apply never_bind;
      [apply never_lift, full_loop_not_LinAlgError |]. intros rs.
    apply never_bind; [apply never_lift, argmin_not_LinAlgError |].
    intros i. apply never_lift, getrow_not_LinAlgError. }
  assert (Hfast : forall mt,
    never (fast_acquisition_optimization ext acquisition bounds restarts
             model mt X_batch L Min) LinAlgError).
  { intros mt. unfold fast_acquisition_optimization.
    apply never_bind; [apply Hcand |]. intros samples.
    apply never_bind; [apply never_lift, argmin_not_LinAlgError |].
    intros i.
    apply never_bind; [apply never_lift, getrow_not_LinAlgError |].
    intros x0.
    apply never_bind;
      [apply never_lift, scipy_minimize_not_LinAlgError |].
    intros res. apply never_ret. }
  unfold optimize_acquisition.
  repeat match goal with
         | |- context [String.eqb ?a ?b] => destruct (String.eqb a b)
         end; auto.
  intros w. discriminate.
Qed.

Lemma hybrid_loop_not_LinAlgError (acqu_name : string) (acquisition_par : R)
    (bounds : bounds_t) (restarts : nat) (method : string) (model : Model)
    (kernel : Kernel) (fuel : nat) :
  forall Xw Yw X_new X_batch,
    never (hybrid_loop ext acqu_name acquisition_par bounds restarts method
             model kernel fuel Xw Yw X_new X_batch) LinAlgError.
Proof.
  induction fuel as [| fuel IH]; intros Xw Yw X_new X_batch; simpl.
  - apply never_ret.
  - intros w.
    destruct (BayesianOptimization ext bounds (Xw ++ [X_new])
                (Yw ++ fst (predict model [X_new])) kernel acqu_name
                acquisition_par w) as [[e | batchBO] w1].
    + destruct e; simpl; discriminate.
    + revert w1.
      change (never
        (X_new0 <- start_optimization ext batchBO bounds method restarts ;;
         hybrid_loop ext acqu_name acquisition_par bounds restarts method
           model kernel fuel (Xw ++ [X_new])
           (Yw ++ fst (predict model [X_new])) X_new0
           (X_batch ++ [X_new0])) LinAlgError).
      apply never_bind; [apply optimize_acquisition_not_LinAlgError |].
      intros x. apply IH.
Qed.

Lemma hybrid_loop_extends (acqu_name : string) (acquisition_par : R)
    (bounds : bounds_t) (restarts : nat) (method : string) (model : Model)
    (kernel : Kernel) (fuel : nat) :
  forall Xw Yw X_new X_batch,
    post (hybrid_loop ext acqu_name acquisition_par bounds restarts method
            model kernel fuel Xw Yw X_new X_batch)
         (fun b => exists rest, b = X_batch ++ rest).
Proof.
  induction fuel as [| fuel IH]; intros Xw Yw X_new X_batch; simpl.
  - apply post_ret. exists []. now rewrite app_nil_r.
  - intros w b w'.
    destruct (BayesianOptimization ext bounds (Xw ++ [X_new])
                (Yw ++ fst (predict model [X_new])) kernel acqu_name
                acquisition_par w) as [[e | batchBO] w1].
    + destruct e; try discriminate.
      unfold bind, print, ret. intros H; inversion H; subst.
      exists []. now rewrite app_nil_r.
    + revert w1 b w'.
      change (post
        (X_new0 <- start_optimization ext batchBO bounds method restarts ;;
         hybrid_loop ext acqu_name acquisition_par bounds restarts method
           model kernel fuel (Xw ++ [X_new])
           (Yw ++ fst (predict model [X_new])) X_new0
           (X_batch ++ [X_new0]))
        (fun b => exists rest, b = X_batch ++ rest)).
      eapply post_bind with (P := fun _ => True);
        [intros w0 a w0' _; exact I |].
      intros x _. eapply post_weaken; [apply IH |].
      intros b [rest ->]. exists (x :: rest).
      now rewrite <- app_assoc.
Qed.

End NoLinAlgError.

(** ** The surrogate-refit strategy *)

Lemma refit_first_point (w : World nat) :
  optimize_acquisition refit_ext step_acquisition [(0, 1)] 2 "fast_brute"
    (flat_model 1) None None None w = (inr [0], w).
Proof.
  unfold optimize_acquisition, fast_acquisition_optimization, bind, lift, ret.
  change (multigrid refit_ext [(0, 1)] 2) with [[0]; [1]].
  cbn [String.eqb Ascii.eqb Bool.eqb].
  rewrite step_acquisition_grid, argmin_tie.
  cbn [getrow nth_error].
  unfold scipy_minimize, objective, penalized_acquisition.
  rewrite step_acquisition_observed.
  cbn [neg map minimum fold_left ebind].
  reflexivity.
Qed.

Lemma refit_data_distinct : NoDup [[5]; [0]].
Proof.
  constructor; [| constructor; [intros [] | constructor]].
  intros [H | []]. inversion H. lra.
Qed.

Lemma refit_data_repeated : ~ NoDup [[5]; [0]; [0]].
Proof.
  intros H. inversion H as [| ? ? _ H2]; subst.
  inversion H2 as [| ? ? Hin _]; subst. apply Hin. now left.
Qed.

Lemma hybrid_loop_step {RNG} (ext : Externals RNG) (acqu_name : string)
    (acquisition_par : R) (bounds : bounds_t) (restarts : nat)
    (method : string) (model : Model) (kernel : Kernel) (fuel : nat)
    (Xw : list point) (Yw : list R) (X_new : point) (X_batch : list point)
    (w w1 w2 : World RNG) (batchBO : BO) (x : point) :
  BayesianOptimization ext bounds (Xw ++ [X_new])
    (Yw ++ fst (predict model [X_new])) kernel acqu_name acquisition_par w
  = (inr batchBO, w1) ->
  start_optimization ext batchBO bounds method restarts w1 = (inr x, w2) ->
  hybrid_loop ext acqu_name acquisition_par bounds restarts method model
    kernel (S fuel) Xw Yw X_new X_batch w
  = hybrid_loop ext acqu_name acquisition_par bounds restarts method model
      kernel fuel (Xw ++ [X_new]) (Yw ++ fst (predict model [X_new])) x
      (X_batch ++ [x]) w2.
Proof.
  intros Hc Hs. simpl. rewrite Hc. unfold bind. rewrite Hs. reflexivity.
Qed.

Lemma refit_ext_distinct (bounds : bounds_t) (Xw : list point) (Yw : list R)
    (kernel : Kernel) (acqu_name : string) (par : R) (w : World nat) :
  NoDup Xw ->
  BayesianOptimization refit_ext bounds Xw Yw kernel acqu_name par w
  = (inr (mkBO (flat_model 1) step_acquisition), w).
Proof.
  intros H. simpl. unfold lift.
  destruct (NoDup_dec (list_eq_dec Req_dec_T) Xw); [reflexivity | contradiction].
Qed.

Lemma refit_ext_repeated (bounds : bounds_t) (Xw : list point) (Yw : list R)
    (kernel : Kernel) (acqu_name : string) (par : R) (w : World nat) :
  ~ NoDup Xw ->
  BayesianOptimization refit_ext bounds Xw Yw kernel acqu_name par w
  = (inl LinAlgError, w).
Proof.
  intros H. simpl. unfold lift.
  destruct (NoDup_dec (list_eq_dec Req_dec_T) Xw); [contradiction | reflexivity].
Qed.

(** A refit batch of size 4 on collaborators that select the point 0 twice
    in a row: the second refit meets the repeated row, the loop stops and
    the two points collected so far are returned. *)
Lemma hybrid_batch_optimization_example :
  hybrid_batch_optimization refit_ext "EI" 0 step_acquisition [(0, 1)] 2
    "fast_brute" (flat_model 1) 4 world0
  = (inr [[0]; [0]], mkWorld 0%nat [stop_message]).
Proof.
  unfold hybrid_batch_optimization, bind.
  rewrite refit_first_point.
  change (4 - 1)%nat with 3%nat.
  rewrite (hybrid_loop_step refit_ext _ _ _ _ _ _ _ _ _ _ _ _ world0 world0
             world0 (mkBO (flat_model 1) step_acquisition) [0]).
  - rewrite (hybrid_loop_stop refit_ext _ _ _ _ _ _ _ _ _ _ _ _ world0 world0);
      [reflexivity |].
    apply refit_ext_repeated, refit_data_repeated.
  - apply refit_ext_distinct, refit_data_distinct.
  - apply refit_first_point.
Qed.



(** ** The batch size *)



Lemma example_sampler_count (grid : bounds_t -> nat -> list point)
    (minim : (point -> R) -> point -> bounds_t -> OptimizeResult)
    (ctor : exn + BO) (bounds : bounds_t) :
  sampler_count (example_ext grid minim ctor) bounds.
Proof. intros n g. simpl. apply repeat_length. Qed.

Lemma example_grid_count
    (minim : (point -> R) -> point -> bounds_t -> OptimizeResult)
    (ctor : exn + BO) (bounds : bounds_t) :
  grid_count (example_ext grid_corner minim ctor) bounds.
Proof. intros n. simpl. apply repeat_length. Qed.

Lemma step_acquisition_contract : acquisition_contract step_acquisition.
Proof. intros xs. apply length_map. Qed.


(** * Further properties of the source file *)

(** ** The minimum of a column *)

Lemma fold_min_spec (l : list R) (v : R) :
  let m := fold_left (fun m u => if Rlt_dec u m then u else m) l v in
  In m (v :: l) /\ m <= v /\ forall u, In u l -> m <= u.
Proof.
  revert v. induction l as [| a l IH]; intros v; simpl.
  - repeat split; [now left | lra | intros u []].
  - destruct (Rlt_dec a v) as [Hlt | Hge].
    + destruct (IH a) as (Hin & Hle & Hall). simpl in Hin.
      repeat split.
      * destruct Hin as [<- | Hin]; [right; now left | right; now right].
      * lra.
      * intros u [<- | Hu]; [exact Hle | now apply Hall].
    + destruct (IH v) as (Hin & Hle & Hall). simpl in Hin.
      repeat split.
      * destruct Hin as [<- | Hin]; [now left | right; now right].
      * exact Hle.
      * intros u [<- | Hu]; [lra | now apply Hall].
Qed.

Lemma minimum_spec (l : list R) (m : R) :
  minimum l = inr m -> In m l /\ forall u, In u l -> m <= u.
Proof.
  destruct l as [| v l]; [discriminate |]. simpl.
  intros H; inversion H; subst; clear H.
  destruct (fold_min_spec l v) as (Hin & Hle & Hall).
  split; [exact Hin |].
  intros u [<- | Hu]; [exact Hle | now apply Hall].
Qed.

Lemma minimum_error (l : list R) (e : exn) :
  minimum l = inl e -> l = [] /\ e = ValueError.
Proof.
  destruct l; [| discriminate]. intros H; inversion H. auto.
Qed.

(** X1.  [estimate_Min] answers the smallest observed output: a value of
    [model.Y] that is below or equal to every value of [model.Y]; it fails,
    with [ValueError], exactly when the model holds no output.  The bounds
    and the quantile it is given play no part. *)
Theorem estimate_Min_smallest_output :
  forall (model : Model) (bounds : bounds_t) (alpha : R),
    (Y model = [] /\ estimate_Min model bounds alpha = inl ValueError)
    \/ (exists m, estimate_Min model bounds alpha = inr m /\
                  In m (Y model) /\
                  forall y, In y (Y model) -> m <= y).
Proof.
  intros model bounds alpha. unfold estimate_Min.
  destruct (minimum (Y model)) as [e | m] eqn:E.
  - left. apply minimum_error in E. destruct E as [-> ->]. auto.
  - right. exists m. split; [reflexivity |]. now apply minimum_spec.
Qed.

(** ** More on the penalized acquisition *)

(** X2.  With no batch so far, the penalized acquisition evaluated on the
    observed inputs [model.X] is nowhere positive and is zero somewhere: the
    offset [sur_min] puts the largest raw score of the observed points at
    zero. *)
Theorem penalized_acquisition_observed_nonpositive :
  forall (acquisition : Acquisition) (bounds : bounds_t) (model : Model)
         (L Min : option R) (scores : list R),
    penalized_acquisition (X model) acquisition bounds model None L Min
    = inr scores ->
    (forall v, In v scores -> v <= 0) /\ In 0 scores.
Proof.
  intros acquisition bounds model L Min scores.
  rewrite penalized_acquisition_None.
  destruct (minimum (neg (acquisition (X model)))) as [e | sur_min] eqn:E;
    [discriminate |].
  simpl. intros H; inversion H; subst; clear H.
  apply minimum_spec in E. destruct E as [Hin Hall].
  unfold neg in Hin, Hall. apply in_map_iff in Hin.
  destruct Hin as (a0 & Ha0 & Hin0).
  split.
  - intros v Hv. apply in_map_iff in Hv. destruct Hv as (a & <- & Ha).
    specialize (Hall (- a) (in_map Ropp _ _ Ha)). lra.
  - apply in_map_iff. exists a0. split; [lra | exact Hin0].
Qed.

Lemma penalized_acquisition_observed_nonpositive_witness :
  exists scores,
    penalized_acquisition (X (flat_model 1)) step_acquisition [(0, 1)]
      (flat_model 1) None None None = inr scores /\
    (forall v, In v scores -> v <= 0) /\ In 0 scores.
Proof.
  destruct (penalized_acquisition (X (flat_model 1)) step_acquisition
              [(0, 1)] (flat_model 1) None None None)
    as [e | scores] eqn:E.
  - exfalso. rewrite penalized_acquisition_None in E.
    rewrite step_acquisition_observed in E. discriminate E.
  - exists scores. split; [reflexivity |].
    exact (penalized_acquisition_observed_nonpositive step_acquisition
             [(0, 1)] (flat_model 1) None None scores E).
Defined.

(** X3.  [penalized_acquisition] fails in exactly two ways: with
    [ValueError] when the acquisition has no score for the observed points
    (the [min] of an empty sequence), and otherwise with [TypeError] when a
    batch with at least one point comes without [L] or without [Min]; in
    every other case it returns its scores. *)
Theorem penalized_acquisition_errors :
  forall (x : list point) (acquisition : Acquisition) (bounds : bounds_t)
         (model : Model) (X_batch : option (list point)) (L Min : option R),
    match penalized_acquisition x acquisition bounds model X_batch L Min with
    | inl e =>
        (acquisition (X model) = [] /\ e = ValueError)
        \/ (acquisition (X model) <> [] /\ e = TypeError /\
            ~ penalty_ready X_batch L Min)
    | inr _ =>
        acquisition (X model) <> [] /\ penalty_ready X_batch L Min
    end.
Proof.
  intros x acquisition bounds model X_batch L Min.
  unfold penalized_acquisition.
  destruct (acquisition (X model)) as [| a rest] eqn:Ea; simpl.
  - left. auto.
  - assert (Hne : a :: rest <> []) by discriminate.
    destruct X_batch as [[| x0 rows] |]; simpl.
    + auto.
    + destruct L as [l |]; [destruct Min as [mn |] |].
      * rewrite penalize_fold. simpl. split; [exact Hne |].
        split; discriminate.
      * simpl. right. repeat split; auto. intros [_ H]. congruence.
      * simpl. right. repeat split; auto. intros [H _]. congruence.
    + auto.
Qed.

Lemma multiply_swap (v a b : list R) :
  multiply (multiply v a) b = multiply (multiply v b) a.
Proof.
  unfold multiply. revert a b.
  induction v as [| u v IH]; intros [| p a] [| q b]; simpl;
    try reflexivity.
  rewrite IH. f_equal. ring.
Qed.

Lemma fold_hammer_permutation (x : list point) (model : Model) (l mn : R)
    (rows rows' : list point) :
  Permutation rows rows' ->
  forall v,
    fold_left (fun acc x0 => multiply acc (hammer_function x x0 l mn model))
              rows v
    = fold_left (fun acc x0 => multiply acc (hammer_function x x0 l mn model))
                rows' v.
Proof.
  induction 1 as [| x0 rows rows' _ IH | x0 x1 rows
                  | rows rows' rows'' _ IH1 _ IH2]; intros v; simpl.
  - reflexivity.
  - apply IH.
  - now rewrite multiply_swap.
  - now rewrite IH1, IH2.
Qed.

(** X4.  The penalized acquisition does not depend on the order in which
    the batch points were selected: two batches with the same rows in a
    different order give the same result (scores or exception). *)
Theorem penalized_acquisition_permutation :
  forall (x : list point) (acquisition : Acquisition) (bounds : bounds_t)
         (model : Model) (rows rows' : list point) (L Min : option R),
    Permutation rows rows' ->
    penalized_acquisition x acquisition bounds model (Some rows) L Min
    = penalized_acquisition x acquisition bounds model (Some rows') L Min.
Proof.
  intros x acquisition bounds model rows rows' L Min Hperm.
  unfold penalized_acquisition.
  destruct (minimum (neg (acquisition (X model)))) as [e | sur_min];
    [reflexivity |].
  simpl ebind. cbv beta iota.
  destruct L as [l |]; [destruct Min as [mn |] |].
  - rewrite !penalize_fold.
    now rewrite (fold_hammer_permutation x model l mn rows rows' Hperm).
  - destruct rows as [| x0 rows].
    + apply Permutation_nil in Hperm. subst. reflexivity.
    + destruct rows' as [| x0' rows'];
        [apply Permutation_sym, Permutation_nil in Hperm; discriminate |].
      reflexivity.
  - destruct rows as [| x0 rows].
    + apply Permutation_nil in Hperm. subst. reflexivity.
    + destruct rows' as [| x0' rows'];
        [apply Permutation_sym, Permutation_nil in Hperm; discriminate |].
      reflexivity.
Qed.

Lemma penalized_acquisition_permutation_witness :
  penalized_acquisition [[0]; [1]] step_acquisition [(0, 1)] (flat_model 1)
    (Some [[0]; [1]]) (Some 1) (Some 2)
  = penalized_acquisition [[0]; [1]] step_acquisition [(0, 1)] (flat_model 1)
      (Some [[1]; [0]]) (Some 1) (Some 2).
Proof.
  apply (penalized_acquisition_permutation [[0]; [1]] step_acquisition
           [(0, 1)] (flat_model 1) [[0]; [1]] [[1]; [0]] (Some 1) (Some 2)).
  apply perm_swap.
Defined.

Lemma multiply_length (a b : list R) :
  length a = length b -> length (multiply a b) = length a.
Proof.
  intros H. unfold multiply.
  rewrite length_map, length_combine, <- H. apply Nat.min_id.
Qed.

Lemma hammer_function_length (x : list point) (x0 : point) (L Min : R)
    (model : Model) :
  length (hammer_function x x0 L Min model) = length x.
Proof. unfold hammer_function. apply length_map. Qed.

(** X5.  For an acquisition that answers one score per point,
    [penalized_acquisition] answers one score per query point as well,
    whatever the batch so far. *)
Theorem penalized_acquisition_length :
  forall (x : list point) (acquisition : Acquisition) (bounds : bounds_t)
         (model : Model) (X_batch : option (list point)) (L Min : option R)
         (scores : list R),
    acquisition_contract acquisition ->
    penalized_acquisition x acquisition bounds model X_batch L Min
    = inr scores ->
    length scores = length x.
Proof.
  intros x acquisition bounds model X_batch L Min scores Hacq.
  unfold penalized_acquisition.
  destruct (minimum (neg (acquisition (X model)))) as [e | sur_min];
    [discriminate |].
  simpl ebind. cbv beta iota.
  set (fval := map (fun a => a - sign sur_min * Rabs sur_min)
                   (neg (acquisition x))).
  assert (Hfval : length fval = length x)
    by (unfold fval; now rewrite length_map, neg_length).
  destruct X_batch as [rows |].
  - assert (Hpen : forall v r,
      length v = length x ->
      penalize x model L Min rows v = inr r -> length r = length x).
    { clear. induction rows as [| x0 rows IH]; intros v r Hv; simpl.
      - intros H; inversion H; subst. exact Hv.
      - destruct L as [l |]; [| discriminate].
        destruct Min as [mn |]; [| discriminate].
        apply IH. rewrite multiply_length; [exact Hv |].
        now rewrite hammer_function_length. }
    destruct (penalize x model L Min rows fval) as [e | r] eqn:E;
      [discriminate |].
    simpl. intros H; inversion H; subst.
    rewrite neg_length. eapply Hpen; eauto.
  - simpl. intros H; inversion H; subst. now rewrite neg_length.
Qed.

Lemma penalized_acquisition_returns (x : list point)
    (acquisition : Acquisition) (bounds : bounds_t) (model : Model)
    (X_batch : option (list point)) (L Min : option R) :
  acquisition (X model) <> [] ->
  penalty_ready X_batch L Min ->
  exists scores,
    penalized_acquisition x acquisition bounds model X_batch L Min
    = inr scores.
Proof.
  intros Hobs Hready. unfold penalized_acquisition.
  destruct (minimum_inr (neg (acquisition (X model)))) as [sm ->].
  { intros Hnil. apply (f_equal (@length R)) in Hnil.
    rewrite neg_length in Hnil.
    destruct (acquisition (X model)); [congruence | discriminate]. }
  simpl ebind. cbv beta iota.
  destruct X_batch as [[| x0 rows] |]; simpl.
  - eauto.
  - destruct Hready as [HL HM].
    destruct L as [l |]; [| congruence].
    destruct Min as [mn |]; [| congruence].
    rewrite penalize_fold. simpl. eauto.
  - eauto.
Qed.

Lemma penalized_acquisition_length_witness :
  exists scores,
    penalized_acquisition [[0]; [1]] step_acquisition [(0, 1)] (flat_model 1)
      (Some [[0]]) (Some 1) (Some 2) = inr scores /\
    length scores = length [[0]; [1]].
Proof.
  destruct (penalized_acquisition_returns [[0]; [1]] step_acquisition
              [(0, 1)] (flat_model 1) (Some [[0]]) (Some 1) (Some 2))
    as [scores E].
  - rewrite step_acquisition_observed. discriminate.
  - simpl. split; discriminate.
  - exists scores. split; [exact E |].
    exact (penalized_acquisition_length [[0]; [1]] step_acquisition [(0, 1)]
             (flat_model 1) (Some [[0]]) (Some 1) (Some 2) scores
             step_acquisition_contract E).
Defined.

(** ** The radius of the hammer *)

(** X6.  For a positive [L] and a model that answers the variance of [x0],
    the exclusion value of [hammer_function] is below 1/2 strictly inside
    the ball of radius [r_x0 = (m - Min) / L] around [x0], exactly 1/2 on
    its sphere and above 1/2 outside. *)
Theorem hammer_function_radius :
  forall (x x0 : point) (L Min : R) (model : Model),
    0 < L ->
    snd (predict model [x0]) <> [] ->
    (dist x x0 < item (hammer_r_x0 x0 L Min model) ->
     item (hammer_function [x] x0 L Min model) < 1 / 2)
    /\ (dist x x0 = item (hammer_r_x0 x0 L Min model) ->
        item (hammer_function [x] x0 L Min model) = 1 / 2)
    /\ (item (hammer_r_x0 x0 L Min model) < dist x x0 ->
        1 / 2 < item (hammer_function [x] x0 L Min model)).
Proof.
  intros x x0 L Min model HL Hvar.
  assert (Hs : 0 < item (hammer_s_x0 x0 L model)).
  { pose proof (hammer_s_x0_pos x0 L model HL) as Hall.
    pose proof (hammer_s_x0_length x0 L model) as Hlen.
    destruct (hammer_s_x0 x0 L model) as [| s rest].
    - destruct (snd (predict model [x0])); [congruence | discriminate].
    - simpl. now inversion Hall. }
  pose proof (Rinv_0_lt_compat _ Hs) as Hinv.
  unfold hammer_function; simpl. rewrite <- norm_cdf_0.
  set (r := item (hammer_r_x0 x0 L Min model)) in *.
  set (s := item (hammer_s_x0 x0 L model)) in *.
  repeat split.
  - intros Hd. apply norm_cdf_increasing. unfold Rdiv. nra.
  - intros Hd. f_equal. rewrite Hd. unfold Rdiv. ring.
  - intros Hd. apply norm_cdf_increasing. unfold Rdiv. nra.
Qed.

Lemma hammer_function_radius_witness :
  (dist [1] [0] < item (hammer_r_x0 [0] 1 2 (flat_model 1)) ->
   item (hammer_function [[1]] [0] 1 2 (flat_model 1)) < 1 / 2)
  /\ (dist [1] [0] = item (hammer_r_x0 [0] 1 2 (flat_model 1)) ->
      item (hammer_function [[1]] [0] 1 2 (flat_model 1)) = 1 / 2)
  /\ (item (hammer_r_x0 [0] 1 2 (flat_model 1)) < dist [1] [0] ->
      1 / 2 < item (hammer_function [[1]] [0] 1 2 (flat_model 1))).
Proof.
  apply (hammer_function_radius [1] [0] 1 2 (flat_model 1)).
  - lra.
  - simpl. discriminate.
Defined.

(** ** The weights of a group *)

Lemma fold_mult_acc (l : list R) (a : R) :
  fold_left Rmult l a = a * fold_left Rmult l 1.
Proof.
  revert a. induction l as [| u l IH]; intros a; simpl.
  - ring.
  - rewrite (IH (a * u)), (IH (1 * u)). ring.
Qed.

Lemma prod_app (l1 l2 : list R) : prod (l1 ++ l2) = prod l1 * prod l2.
Proof.
  unfold prod. rewrite fold_left_app. apply fold_mult_acc.
Qed.

Lemma prod_cons (u : R) (l : list R) : prod (u :: l) = u * prod l.
Proof.
  unfold prod. simpl. rewrite fold_mult_acc. ring.
Qed.

Lemma prod_delete (i : nat) (p : list R) (pi : R) :
  nth_error p i = Some pi -> prod (delete i p) * pi = prod p.
Proof.
  intros Hi. unfold delete.
  rewrite <- (firstn_skipn i p) at 3.
  assert (Hskip : skipn i p = pi :: skipn (S i) p).
  { clear - Hi. revert p Hi. induction i as [| i IH]; intros [| u p] Hi;
      simpl in *; try discriminate.
    - now inversion Hi.
    - now apply IH. }
  rewrite Hskip, !prod_app, prod_cons. ring.
Qed.

(** X7.  When [compute_w] returns, the inverse square root of [Sigma] was
    computed, there is one weight per row of [Sigma], and the weight of
    point [i] is the product of the probabilities of all the other points:
    multiplied by the probability of [i] it gives the product of all the
    probabilities.  [compute_w] fails exactly when the matrix function
    fails, with its exception. *)
Theorem compute_w_leave_one_out :
  forall (RNG : Type) (ext : Externals RNG) (mu : list R) (Sigma : matrix),
    match compute_w ext mu Sigma with
    | inr w =>
        exists Sigma12,
          sqrtm_inv ext Sigma = inr Sigma12 /\
          length w = length Sigma /\
          forall i wi pi,
            nth_error w i = Some wi ->
            nth_error (map norm_cdf (dot Sigma12 mu)) i = Some pi ->
            wi * pi = prod (map norm_cdf (dot Sigma12 mu))
    | inl e => sqrtm_inv ext Sigma = inl e
    end.
Proof.
  intros RNG ext mu Sigma. unfold compute_w.
  destruct (sqrtm_inv ext Sigma) as [e | Sigma12]; simpl; [reflexivity |].
  exists Sigma12. split; [reflexivity |].
  split; [now rewrite length_map, length_seq |].
  intros i wi pi Hw Hp.
  rewrite nth_error_map in Hw.
  destruct (nth_error (seq 0 (length Sigma)) i) as [k |] eqn:Ek;
    [| discriminate].
  apply nth_error_In in Ek as Hin. apply in_seq in Hin.
  assert (k = i).
  { assert (Hi : (i < length (seq 0 (length Sigma)))%nat)
      by (apply nth_error_Some; congruence).
    rewrite length_seq in Hi.
    pose proof (nth_error_nth' (seq 0 (length Sigma)) 0%nat
                  ltac:(rewrite length_seq; exact Hi)) as Hn.
    rewrite seq_nth in Hn by exact Hi. simpl in Hn. congruence. }
  subst k. simpl in Hw. inversion Hw; subst.
  now apply prod_delete.
Qed.

(** A single point has the weight 1, the empty product. *)
Example compute_batch_weigths_single_point :
  compute_batch_weigths (example_ext grid_corner stay (inl LinAlgError))
    [[5]] (flat_model 1) = inr [1].
Proof. reflexivity. Qed.

(** ** More on the single-point optimizers *)

Lemma full_loop_spec {RNG} (ext : Externals RNG) (f : point -> exn + R)
    (bounds : bounds_t) (samples : list point) (ks : list nat)
    (rs : list OptimizeResult) :
  full_loop ext f bounds samples ks = inr rs ->
  Forall2 (fun k r => exists x0, nth_error samples k = Some x0 /\
                                 scipy_minimize ext f x0 bounds = inr r)
          ks rs.
Proof.
  revert rs. induction ks as [| k ks IH]; intros rs; simpl.
  - intros H; inversion H; subst. constructor.
  - unfold getrow.
    destruct (nth_error samples k) as [x0 |] eqn:Ek; [| discriminate].
    simpl.
    destruct (scipy_minimize ext f x0 bounds) as [e | res] eqn:Eres;
      [discriminate |]. simpl.
    destruct (full_loop ext f bounds samples ks) as [e | rs'];
      [discriminate |]. simpl.
    intros H; inversion H; subst. constructor; eauto.
Qed.

(** X8.  When [full_acquisition_optimization] returns a point, one local
    optimization was run from each of the first [restarts] candidates, in
    order, and the point returned is the answer of the run with the smallest
    objective value [fun], the first such run when values tie. *)
Theorem full_acquisition_optimization_best :
  forall (RNG : Type) (ext : Externals RNG) (acquisition : Acquisition)
         (bounds : bounds_t) (restarts : nat) (model : Model)
         (method_type : string) (X_batch : option (list point))
         (L Min : option R) (w w' : World RNG) (x : point),
    full_acquisition_optimization ext acquisition bounds restarts model
      method_type X_batch L Min w = (inr x, w') ->
    exists (samples : list point) (rs : list OptimizeResult) (i : nat)
           (r : OptimizeResult),
      candidates ext method_type bounds restarts w = (inr samples, w') /\
      Forall2 (fun k r' =>
                 exists x0, nth_error samples k = Some x0 /\
                            scipy_minimize ext
                              (objective acquisition bounds model X_batch
                                 L Min) x0 bounds = inr r')
              (seq 0 restarts) rs /\
      nth_error rs i = Some r /\
      x = opt_x r /\
      (forall r', In r' rs -> opt_fun r <= opt_fun r') /\
      (forall j r', (j < i)%nat -> nth_error rs j = Some r' ->
                    opt_fun r < opt_fun r').
Proof.
  intros RNG ext acquisition bounds restarts model method_type X_batch L Min
    w w' x.
  unfold full_acquisition_optimization.
  fold (candidates ext method_type bounds restarts).
  unfold bind at 1.
  destruct (candidates_inr ext method_type bounds restarts w)
    as (samples & w1 & -> & _ & _).
  unfold bind, lift, ret.
  destruct (full_loop ext (objective acquisition bounds model X_batch L Min)
              bounds samples (seq 0 restarts)) as [e | rs] eqn:Ers;
    [discriminate |].
  destruct (argmin (map opt_fun rs)) as [e | i] eqn:Ei; [discriminate |].
  unfold getrow.
  destruct (nth_error (map opt_x rs) i) as [xi |] eqn:Exi; [| discriminate].
  intros H; inversion H; subst; clear H.
  destruct (argmin_spec _ _ Ei) as (vi & Hvi & Hmin & Hfirst).
  rewrite nth_error_map in Exi, Hvi.
  destruct (nth_error rs i) as [r |] eqn:Er; [| discriminate].
  simpl in Exi, Hvi. inversion Exi; inversion Hvi; subst.
  exists samples, rs, i, r.
  repeat split; auto.
  - now apply full_loop_spec.
  - intros r' Hr'. apply In_nth_error in Hr'. destruct Hr' as [j Hj].
    apply (Hmin j). rewrite nth_error_map, Hj. reflexivity.
  - intros j r' Hlt Hj. apply (Hfirst j); [exact Hlt |].
    rewrite nth_error_map, Hj. reflexivity.
Qed.

Lemma full_acquisition_optimization_best_witness :
  exists (x : point) (w' : World nat),
    full_acquisition_optimization
      (example_ext grid_corner stay (inl LinAlgError)) step_acquisition
      [(0, 1)] 3 (flat_model 1) "random" None None None world0
    = (inr x, w') /\
    exists (samples : list point) (rs : list OptimizeResult) (i : nat)
           (r : OptimizeResult),
      candidates (example_ext grid_corner stay (inl LinAlgError)) "random"
        [(0, 1)] 3 world0 = (inr samples, w') /\
      Forall2 (fun k r' =>
                 exists x0, nth_error samples k = Some x0 /\
                            scipy_minimize
                              (example_ext grid_corner stay
                                 (inl LinAlgError))
                              (objective step_acquisition [(0, 1)]
                                 (flat_model 1) None None None) x0 [(0, 1)]
                            = inr r')
              (seq 0 3) rs /\
      nth_error rs i = Some r /\
      x = opt_x r /\
      (forall r', In r' rs -> opt_fun r <= opt_fun r') /\
      (forall j r', (j < i)%nat -> nth_error rs j = Some r' ->
                    opt_fun r < opt_fun r').
Proof.
  destruct (full_acquisition_optimization_returns
              (example_ext grid_corner stay (inl LinAlgError)) [(0, 1)]
              (example_sampler_count _ _ _ _) (example_grid_count _ _ _)
              step_acquisition 3%nat (flat_model 1) None None None
              step_acquisition_contract ltac:(discriminate) I ltac:(lia)
              "random"%string world0) as (x & w' & E & _).
  exists x, w'. split; [exact E |].
  exact (full_acquisition_optimization_best nat _ _ _ _ _ _ _ _ _ _ _ _ E).
Defined.

(** X9.  With samplers that answer the number of points they are asked for
    and an acquisition that answers one score per point, a request for zero
    restarts makes [optimize_acquisition] fail with [ValueError] under each
    of the four methods (the arg-min of an empty array). *)
Theorem optimize_acquisition_no_restart :
  forall (RNG : Type) (ext : Externals RNG) (acquisition : Acquisition)
         (bounds : bounds_t) (method : string) (model : Model)
         (X_batch : option (list point)) (L Min : option R) (w : World RNG),
    sampler_count ext bounds ->
    grid_count ext bounds ->
    acquisition_contract acquisition ->
    In method methods ->
    fst (optimize_acquisition ext acquisition bounds 0 method model X_batch
           L Min w) = inl ValueError.
Proof.
  intros RNG ext acquisition bounds method model X_batch L Min w
    Hsam Hgrid Hacq Hmethod.
  assert (Hfull : forall mt,
    fst (full_acquisition_optimization ext acquisition bounds 0 model mt
           X_batch L Min w) = inl ValueError).
  { intros mt. unfold full_acquisition_optimization.
    fold (candidates ext mt bounds 0). unfold bind at 1.
    destruct (candidates_inr ext mt bounds 0 w)
      as (samples & w1 & -> & _ & _).
    reflexivity. }
  assert (Hfast : forall mt,
    fst (fast_acquisition_optimization ext acquisition bounds 0 model mt
           X_batch L Min w) = inl ValueError).
  { intros mt. unfold fast_acquisition_optimization.
    fold (candidates ext mt bounds 0). unfold bind at 1.
    destruct (candidates_count ext bounds Hsam Hgrid mt 0%nat w)
      as (samples & w1 & -> & Hlen).
    destruct samples; [| discriminate].
    unfold bind, lift.
    pose proof (Hacq []) as Hnil.
    destruct (acquisition []); [reflexivity | discriminate]. }
  unfold methods in Hmethod. simpl in Hmethod.
  destruct Hmethod as [<- | [<- | [<- | [<- | []]]]];
    unfold optimize_acquisition; simpl; auto.
Qed.

Lemma optimize_acquisition_no_restart_witness :
  fst (optimize_acquisition (example_ext grid_corner stay (inl LinAlgError))
         step_acquisition [(0, 1)] 0 "fast_random" (flat_model 1) None None
         None world0) = inl ValueError.
Proof.
  apply (optimize_acquisition_no_restart nat
           (example_ext grid_corner stay (inl LinAlgError)) step_acquisition
           [(0, 1)] "fast_random"%string (flat_model 1) None None None
           world0).
  - apply example_sampler_count.
  - apply example_grid_count.
  - apply step_acquisition_contract.
  - unfold methods. simpl. tauto.
Defined.

(** X10.  On a model with no observed point, with at least one restart,
    samplers that answer the number of points they are asked for and an
    acquisition that answers one score per point, [optimize_acquisition]
    fails with [ValueError] under each of the four methods: the offset of
    the penalized acquisition is the [min] of an empty sequence. *)
Theorem optimize_acquisition_no_observation :
  forall (RNG : Type) (ext : Externals RNG) (acquisition : Acquisition)
         (bounds : bounds_t) (restarts : nat) (method : string)
         (model : Model) (X_batch : option (list point)) (L Min : option R)
         (w : World RNG),
    sampler_count ext bounds ->
    grid_count ext bounds ->
    acquisition_contract acquisition ->
    In method methods ->
    (1 <= restarts)%nat ->
    X model = [] ->
    fst (optimize_acquisition ext acquisition bounds restarts method model
           X_batch L Min w) = inl ValueError.
Proof.
  intros RNG ext acquisition bounds restarts method model X_batch L Min w
    Hsam Hgrid Hacq Hmethod Hrestarts HX.
  assert (Hobj : forall p,
    objective acquisition bounds model X_batch L Min p = inl ValueError).
  { intros p. unfold objective, penalized_acquisition. rewrite HX.
    pose proof (Hacq []) as Hnil.
    destruct (acquisition []); [reflexivity | discriminate]. }
  assert (Hmin : forall x0,
    scipy_minimize ext (objective acquisition bounds model X_batch L Min)
      x0 bounds = inl ValueError).
  { intros x0. unfold scipy_minimize. now rewrite Hobj. }
  assert (Hfull : forall mt,
    fst (full_acquisition_optimization ext acquisition bounds restarts model
           mt X_batch L Min w) = inl ValueError).
  { intros mt. unfold full_acquisition_optimization.
    fold (candidates ext mt bounds restarts). unfold bind at 1.
    destruct (candidates_count ext bounds Hsam Hgrid mt restarts w)
      as (samples & w1 & -> & Hlen).
    unfold bind, lift.
    destruct restarts as [| n]; [lia |].
    destruct samples as [| p samples]; [discriminate |].
    simpl. rewrite Hmin. reflexivity. }
  assert (Hfast : forall mt,
    fst (fast_acquisition_optimization ext acquisition bounds restarts model
           mt X_batch L Min w) = inl ValueError).
  { intros mt. unfold fast_acquisition_optimization.
    fold (candidates ext mt bounds restarts). unfold bind at 1.
    destruct (candidates_count ext bounds Hsam Hgrid mt restarts w)
      as (samples & w1 & -> & Hlen).
    unfold bind, lift.
    destruct (argmin (acquisition samples)) as [e | i] eqn:Ei.
    - destruct (acquisition samples); [| discriminate].
      inversion Ei. reflexivity.
    - destruct (getrow_lt samples i) as [x0 ->].
      { apply argmin_lt in Ei. now rewrite Hacq in Ei. }
      rewrite Hmin. reflexivity. }
  unfold methods in Hmethod. simpl in Hmethod.
  destruct Hmethod as [<- | [<- | [<- | [<- | []]]]];
    unfold optimize_acquisition; simpl; auto.
Qed.

Lemma optimize_acquisition_no_observation_witness :
  fst (optimize_acquisition (example_ext grid_corner stay (inl LinAlgError))
         step_acquisition [(0, 1)] 2 "brute" empty_model None None None
         world0) = inl ValueError.
Proof.
  apply (optimize_acquisition_no_observation nat
           (example_ext grid_corner stay (inl LinAlgError)) step_acquisition
           [(0, 1)] 2%nat "brute"%string empty_model None None None world0).
  - apply example_sampler_count.
  - apply example_grid_count.
  - apply step_acquisition_contract.
  - unfold methods. simpl. tauto.
  - lia.
  - reflexivity.
Defined.

(** X11.  With a single restart the fast and the full optimizer are the
    same computation (same result or exception, same world), when the
    samplers answer the number of points they are asked for and the
    acquisition answers one score per point. *)
Theorem single_restart_fast_is_full :
  forall (RNG : Type) (ext : Externals RNG) (acquisition : Acquisition)
         (bounds : bounds_t) (model : Model) (method_type : string)
         (X_batch : option (list point)) (L Min : option R) (w : World RNG),
    sampler_count ext bounds ->
    grid_count ext bounds ->
    acquisition_contract acquisition ->
    fast_acquisition_optimization ext acquisition bounds 1 model method_type
      X_batch L Min w
    = full_acquisition_optimization ext acquisition bounds 1 model
        method_type X_batch L Min w.
Proof.
  intros RNG ext acquisition bounds model method_type X_batch L Min w
    Hsam Hgrid Hacq.
  unfold fast_acquisition_optimization, full_acquisition_optimization.
  fold (candidates ext method_type bounds 1). unfold bind at 1 5.
  destruct (candidates_count ext bounds Hsam Hgrid method_type 1%nat w)
    as (samples & w1 & -> & Hlen).
  destruct samples as [| p [| q samples]]; try discriminate.
  pose proof (Hacq [p]) as Ha.
  destruct (acquisition [p]) as [| a [| b rest]]; try discriminate.
  unfold bind, lift, ret. simpl.
  destruct (scipy_minimize ext
              (objective acquisition bounds model X_batch L Min) p bounds)
    as [e | res]; reflexivity.
Qed.

Lemma single_restart_fast_is_full_witness :
  fast_acquisition_optimization
    (example_ext grid_corner stay (inl LinAlgError)) step_acquisition
    [(0, 1)] 1 (flat_model 1) "random" None None None world0
  = full_acquisition_optimization
      (example_ext grid_corner stay (inl LinAlgError)) step_acquisition
      [(0, 1)] 1 (flat_model 1) "random" None None None world0.
Proof.
  apply (single_restart_fast_is_full nat
           (example_ext grid_corner stay (inl LinAlgError)) step_acquisition
           [(0, 1)] (flat_model 1) "random"%string None None None world0).
  - apply example_sampler_count.
  - apply example_grid_count.
  - apply step_acquisition_contract.
Defined.

(** ** What the optimizers do to the world *)

Lemma bind_world {RNG A B} (m : M RNG A) (k : A -> M RNG B) (w : World RNG) :
  (forall a w1, snd (k a w1) = w1) -> snd (bind m k w) = snd (m w).
Proof.
  intros Hk. unfold bind. destruct (m w) as [[e | a] w1]; simpl;
    [reflexivity | apply Hk].
Qed.

Lemma candidates_world {RNG} (ext : Externals RNG) (method_type : string)
    (bounds : bounds_t) (n : nat) (w : World RNG) :
  snd (candidates ext method_type bounds n w)
  = if String.eqb method_type "random"
    then mkWorld (snd (samples_multidimensional_uniform ext bounds n (rng w)))
                 (stdout w)
    else w.
Proof.
  unfold candidates, draw, ret.
  destruct (String.eqb method_type "random"); [| reflexivity].
  now destruct (samples_multidimensional_uniform ext bounds n (rng w)).
Qed.

Lemma fast_acquisition_optimization_world {RNG} (ext : Externals RNG)
    (acquisition : Acquisition) (bounds : bounds_t) (restarts : nat)
    (model : Model) (method_type : string) (X_batch : option (list point))
    (L Min : option R) (w : World RNG) :
  snd (fast_acquisition_optimization ext acquisition bounds restarts model
         method_type X_batch L Min w)
  = snd (candidates ext method_type bounds restarts w).
Proof.
  unfold fast_acquisition_optimization.
  fold (candidates ext method_type bounds restarts).
  apply bind_world. intros samples w1.
  unfold bind, lift, ret.
  destruct (argmin (acquisition samples)); [reflexivity |].
  destruct (getrow samples n); [reflexivity |].
  destruct (scipy_minimize ext _ p bounds); reflexivity.
Qed.

Lemma full_acquisition_optimization_world {RNG} (ext : Externals RNG)
    (acquisition : Acquisition) (bounds : bounds_t) (restarts : nat)
    (model : Model) (method_type : string) (X_batch : option (list point))
    (L Min : option R) (w : World RNG) :
  snd (full_acquisition_optimization ext acquisition bounds restarts model
         method_type X_batch L Min w)
  = snd (candidates ext method_type bounds restarts w).
Proof.
  unfold full_acquisition_optimization.
  fold (candidates ext method_type bounds restarts).
  apply bind_world. intros samples w1.
  unfold bind, lift, ret.
  destruct (full_loop ext _ bounds samples (seq 0 restarts));
    [reflexivity |].
  destruct (argmin (map opt_fun l)); [reflexivity |].
  destruct (getrow (map opt_x l) n); reflexivity.
Qed.

(** X12.  [optimize_acquisition] never prints; under the grid methods
    'brute' and 'fast_brute' it leaves the world as it was (no random draw),
    and under 'random' and 'fast_random' the random generator has advanced
    by exactly one call of the uniform sampler for [restarts] points,
    whether the call ends with a point or with an exception. *)
Theorem optimize_acquisition_world :
  forall (RNG : Type) (ext : Externals RNG) (acquisition : Acquisition)
         (bounds : bounds_t) (restarts : nat) (model : Model)
         (X_batch : option (list point)) (L Min : option R) (w : World RNG),
    (forall method,
        stdout (snd (optimize_acquisition ext acquisition bounds restarts
                       method model X_batch L Min w)) = stdout w)
    /\ snd (optimize_acquisition ext acquisition bounds restarts "brute"
              model X_batch L Min w) = w
    /\ snd (optimize_acquisition ext acquisition bounds restarts "fast_brute"
              model X_batch L Min w) = w
    /\ rng (snd (optimize_acquisition ext acquisition bounds restarts
                   "random" model X_batch L Min w))
       = snd (samples_multidimensional_uniform ext bounds restarts (rng w))
    /\ rng (snd (optimize_acquisition ext acquisition bounds restarts
                   "fast_random" model X_batch L Min w))
       = snd (samples_multidimensional_uniform ext bounds restarts (rng w)).
Proof.
  intros RNG ext acquisition bounds restarts model X_batch L Min w.
  split; [| repeat split].
  - intros method. unfold optimize_acquisition.
    repeat match goal with
           | |- context [String.eqb ?a ?b] => destruct (String.eqb a b)
           end;
      rewrite ?full_acquisition_optimization_world,
        ?fast_acquisition_optimization_world, ?candidates_world;
      reflexivity.
  - unfold optimize_acquisition. simpl.
    now rewrite full_acquisition_optimization_world, candidates_world.
  - unfold optimize_acquisition. simpl.
    now rewrite fast_acquisition_optimization_world, candidates_world.
  - unfold optimize_acquisition. simpl.
    now rewrite full_acquisition_optimization_world, candidates_world.
  - unfold optimize_acquisition. simpl.
    now rewrite fast_acquisition_optimization_world, candidates_world.
Qed.

(** ** More on the batch strategies *)

Lemma optimize_acquisition_unknown {RNG} (ext : Externals RNG)
    (acquisition : Acquisition) (bounds : bounds_t) (restarts : nat)
    (method : string) (model : Model) (X_batch : option (list point))
    (L Min : option R) (w : World RNG) :
  ~ In method methods ->
  optimize_acquisition ext acquisition bounds restarts method model X_batch
    L Min w = (inl UnboundLocalError, w).
Proof.
  intros Hnot. unfold optimize_acquisition.
  destruct (String.eqb_spec method "brute") as [-> | _];
    [exfalso; apply Hnot; simpl; tauto |].
  destruct (String.eqb_spec method "random") as [-> | _];
    [exfalso; apply Hnot; simpl; tauto |].
  destruct (String.eqb_spec method "fast_brute") as [-> | _];
    [exfalso; apply Hnot; simpl; tauto |].
  destruct (String.eqb_spec method "fast_random") as [-> | _];
    [exfalso; apply Hnot; simpl; tauto |].
  reflexivity.
Qed.

(** X13.  With a method name that is none of the four, the random-fill,
    the penalization and the surrogate-refit strategy fail with
    [UnboundLocalError] before anything else happens: no sample is drawn,
    no estimate is made, no surrogate is built and nothing is printed. *)
Theorem batch_strategies_unknown_method :
  forall (RNG : Type) (ext : Externals RNG) (acquisition : Acquisition)
         (bounds : bounds_t) (restarts : nat) (method : string)
         (model : Model) (n_inbatch : nat) (w : World RNG),
    ~ In method methods ->
    random_batch_optimization ext acquisition bounds restarts method model
      n_inbatch w = (inl UnboundLocalError, w)
    /\ (forall alpha_L alpha_Min,
          adaptive_batch_optimization ext acquisition bounds restarts method
            model n_inbatch alpha_L alpha_Min w
          = (inl UnboundLocalError, w))
    /\ (forall acqu_name acquisition_par,
          hybrid_batch_optimization ext acqu_name acquisition_par
            acquisition bounds restarts method model n_inbatch w
          = (inl UnboundLocalError, w)).
Proof.
  intros RNG ext acquisition bounds restarts method model n_inbatch w Hnot.
  repeat split; intros;
    unfold random_batch_optimization, adaptive_batch_optimization,
      hybrid_batch_optimization, bind;
    now rewrite optimize_acquisition_unknown.
Qed.

Lemma batch_strategies_unknown_method_witness :
  random_batch_optimization (example_ext grid_corner stay (inl LinAlgError))
    step_acquisition [(0, 1)] 2 "lbfgs" (flat_model 1) 3 world0
  = (inl UnboundLocalError, world0).
Proof.
  apply (proj1 (batch_strategies_unknown_method nat
                  (example_ext grid_corner stay (inl LinAlgError))
                  step_acquisition [(0, 1)] 2%nat "lbfgs"%string
                  (flat_model 1) 3%nat world0
                  ltac:(unfold methods; simpl;
                        intros [H | [H | [H | [H | []]]]];
                        discriminate H))).
Defined.

Lemma adaptive_loop_extends {RNG} (ext : Externals RNG)
    (acquisition : Acquisition) (bounds : bounds_t) (restarts : nat)
    (method : string) (model : Model) (L Min : option R) (fuel : nat) :
  forall X_batch,
    post (adaptive_loop ext acquisition bounds restarts method model L Min
            fuel X_batch)
         (fun b => exists rest, b = X_batch ++ rest /\ length rest = fuel).
Proof.
  induction fuel as [| fuel IH]; intros X_batch; simpl.
  - apply post_ret. exists []. now rewrite app_nil_r.
  - eapply post_bind with (P := fun _ => True);
      [intros w a w' _; exact I |].
    intros x _. eapply post_weaken; [apply IH |].
    intros b (rest & -> & Hlen). exists (x :: rest).
    rewrite <- app_assoc. simpl. auto.
Qed.

(** X14.  Whenever [adaptive_batch_optimization] returns a batch, the batch
    begins with the point the single-point optimizer found with no batch so
    far, and it holds [max 1 n_inbatch] points: one more optimized point per
    further slot, and still one point when [n_inbatch] is 0.  For
    [n_inbatch <= 1] the batch is that one point and nothing is estimated:
    the world is the one the first optimization left. *)
Theorem adaptive_batch_optimization_shape :
  forall (RNG : Type) (ext : Externals RNG) (acquisition : Acquisition)
         (bounds : bounds_t) (restarts : nat) (method : string)
         (model : Model) (n_inbatch : nat) (alpha_L alpha_Min : R)
         (w w' : World RNG) (batch : list point),
    adaptive_batch_optimization ext acquisition bounds restarts method model
      n_inbatch alpha_L alpha_Min w = (inr batch, w') ->
    exists (x : point) (w1 : World RNG) (rest : list point),
      optimize_acquisition ext acquisition bounds restarts method model
        None None None w = (inr x, w1) /\
      batch = x :: rest /\
      length batch = Nat.max 1 n_inbatch /\
      ((n_inbatch <= 1)%nat -> rest = [] /\ w' = w1).
Proof.
  intros RNG ext acquisition bounds restarts method model n_inbatch
    alpha_L alpha_Min w w' batch.
  unfold adaptive_batch_optimization. unfold bind at 1.
  destruct (optimize_acquisition ext acquisition bounds restarts method
              model None None None w) as [[e | x] w1]; [discriminate |].
  intros H. exists x, w1.
  destruct (Nat.ltb_spec 1 n_inbatch) as [Hlt | Hge].
  - unfold bind at 1 in H.
    match type of H with
    | match ?m w1 with _ => _ end = _ =>
        destruct (m w1) as [[e | LMin] w2]; [discriminate |]
    end.
    apply adaptive_loop_extends in H. destruct H as (rest & -> & Hlen).
    exists rest. repeat split.
    + change (length ([x] ++ rest)) with (S (length rest)).
      rewrite Hlen. lia.
    + lia.
    + lia.
  - replace (n_inbatch - 1)%nat with 0%nat in H by lia.
    unfold bind, ret in H. simpl in H. inversion H; subst.
    exists []. repeat split.
    change (length [x]) with 1%nat. lia.
Qed.

Lemma adaptive_batch_optimization_returns {RNG} (ext : Externals RNG)
    (acquisition : Acquisition) (bounds : bounds_t) (restarts : nat)
    (method : string) (model : Model) (n_inbatch : nat)
    (alpha_L alpha_Min : R) :
  sampler_count ext bounds ->
  grid_count ext bounds ->
  acquisition_contract acquisition ->
  X model <> [] ->
  Y model <> [] ->
  gradient_contract model ->
  (1 <= restarts)%nat ->
  In method methods ->
  total (adaptive_batch_optimization ext acquisition bounds restarts method
           model n_inbatch alpha_L alpha_Min) (fun _ => True).
Proof.
  intros Hsam Hgrid Hacq HX HY Hgrad Hrestarts Hmethod.
  unfold adaptive_batch_optimization.
  eapply total_bind;
    [apply optimize_acquisition_returns with (L := None) (Min := None);
     simpl; auto |].
  intros x _.
  destruct (Nat.ltb_spec 1 n_inbatch) as [Hlt | Hge].
  - eapply total_bind with
      (P := fun LMin => exists l mn, LMin = (Some l, Some mn)).
    + eapply total_bind; [now apply estimate_L_returns |].
      intros l _.
      destruct (minimum_inr (Y model) HY) as [mn Hmn].
      eapply total_bind;
        [eapply total_lift with (P := fun r => r = mn); eauto |].
      intros ? ->. apply total_ret. eauto.
    + intros LMin (l & mn & ->). simpl fst. simpl snd.
      eapply total_weaken; [now apply adaptive_loop_count |].
      intros b _. exact I.
  - replace (n_inbatch - 1)%nat with 0%nat by lia.
    eapply total_bind with (P := fun _ => True);
      [apply total_ret; exact I |].
    intros LMin _. simpl. now apply total_ret.
Qed.

Lemma adaptive_batch_optimization_shape_witness :
  exists (batch : list point) (w' : World nat),
    adaptive_batch_optimization
      (example_ext grid_corner stay (inl LinAlgError)) step_acquisition
      [(0, 1)] 2 "fast_random" (flat_model 1) 3 0.025 0.025 world0
    = (inr batch, w') /\
    exists (x : point) (w1 : World nat) (rest : list point),
      optimize_acquisition (example_ext grid_corner stay (inl LinAlgError))
        step_acquisition [(0, 1)] 2 "fast_random" (flat_model 1) None None
        None world0 = (inr x, w1) /\
      batch = x :: rest /\
      length batch = Nat.max 1 3 /\
      ((3 <= 1)%nat -> rest = [] /\ w' = w1).
Proof.
  destruct (adaptive_batch_optimization_returns
              (example_ext grid_corner stay (inl LinAlgError))
              step_acquisition [(0, 1)] 2%nat "fast_random"%string
              (flat_model 1) 3%nat 0.025 0.025
              (example_sampler_count _ _ _ _) (example_grid_count _ _ _)
              step_acquisition_contract ltac:(discriminate)
              ltac:(discriminate)
              ltac:(intros xs; simpl; apply length_map) ltac:(lia)
              ltac:(unfold methods; simpl; tauto) world0)
    as (batch & w' & E & _).
  exists batch, w'. split; [exact E |].
  exact (adaptive_batch_optimization_shape nat _ _ _ _ _ _ _ _ _ _ _ _ E).
Defined.

Lemma random_loop_fills {RNG} (ext : Externals RNG) (bounds : bounds_t)
    (fuel : nat) :
  forall X_batch,
    post (random_loop ext bounds fuel X_batch)
         (fun b => exists rest,
            b = X_batch ++ rest /\
            (fuel = 0%nat -> rest = []) /\
            Forall (fun p => exists g,
                      In p (fst (samples_multidimensional_uniform ext
                                   bounds 1 g))) rest).
Proof.
  induction fuel as [| fuel IH]; intros X_batch; simpl.
  - apply post_ret. exists []. rewrite app_nil_r. auto.
  - eapply post_bind with
      (P := fun s => exists g,
              s = fst (samples_multidimensional_uniform ext bounds 1 g)).
    { intros w a w'. unfold draw.
      destruct (samples_multidimensional_uniform ext bounds 1 (rng w))
        as [s g] eqn:Es.
      intros H; inversion H; subst. exists (rng w). now rewrite Es. }
    intros new_sample [g ->]. eapply post_weaken; [apply IH |].
    intros b (rest & -> & _ & Hall).
    exists (fst (samples_multidimensional_uniform ext bounds 1 g) ++ rest).
    rewrite <- app_assoc. repeat split; [discriminate |].
    apply Forall_app. split; [| exact Hall].
    apply Forall_forall. intros p Hp. eauto.
Qed.

(** X15.  Whenever [random_batch_optimization] returns a batch, the batch
    begins with the point of the single-point optimizer and every further
    point is a row of a one-point draw of the uniform sampler over the same
    bounds: neither the model nor the acquisition is consulted for them.
    For [n_inbatch <= 1] the batch is the first point alone and no sample is
    drawn. *)
Theorem random_batch_optimization_fill :
  forall (RNG : Type) (ext : Externals RNG) (acquisition : Acquisition)
         (bounds : bounds_t) (restarts : nat) (method : string)
         (model : Model) (n_inbatch : nat) (w w' : World RNG)
         (batch : list point),
    random_batch_optimization ext acquisition bounds restarts method model
      n_inbatch w = (inr batch, w') ->
    exists (x : point) (w1 : World RNG) (rest : list point),
      optimize_acquisition ext acquisition bounds restarts method model
        None None None w = (inr x, w1) /\
      batch = x :: rest /\
      Forall (fun p => exists g,
                In p (fst (samples_multidimensional_uniform ext bounds 1 g)))
             rest /\
      ((n_inbatch <= 1)%nat -> rest = [] /\ w' = w1).
Proof.
  intros RNG ext acquisition bounds restarts method model n_inbatch w w'
    batch.
  unfold random_batch_optimization. unfold bind at 1.
  destruct (optimize_acquisition ext acquisition bounds restarts method
              model None None None w) as [[e | x] w1]; [discriminate |].
  intros H. exists x, w1.
  pose proof (random_loop_fills ext bounds (n_inbatch - 1) [x] _ _ _ H)
    as (rest & -> & Hnil & Hall).
  exists rest. repeat split; auto.
  - apply Hnil. lia.
  - replace (n_inbatch - 1)%nat with 0%nat in H by lia.
    simpl in H. inversion H. reflexivity.
Qed.

Lemma random_batch_optimization_returns {RNG} (ext : Externals RNG)
    (acquisition : Acquisition) (bounds : bounds_t) (restarts : nat)
    (method : string) (model : Model) (n_inbatch : nat) :
  sampler_count ext bounds ->
  grid_count ext bounds ->
  acquisition_contract acquisition ->
  X model <> [] ->
  (1 <= restarts)%nat ->
  In method methods ->
  total (random_batch_optimization ext acquisition bounds restarts method
           model n_inbatch) (fun _ => True).
Proof.
  intros Hsam Hgrid Hacq HX Hrestarts Hmethod.
  unfold random_batch_optimization.
  eapply total_bind;
    [apply optimize_acquisition_returns with (L := None) (Min := None);
     simpl; auto |].
  intros x _. eapply total_weaken; [now apply random_loop_count |].
  intros b _. exact I.
Qed.

Lemma random_batch_optimization_fill_witness :
  exists (batch : list point) (w' : World nat),
    random_batch_optimization
      (example_ext grid_corner stay (inl LinAlgError)) step_acquisition
      [(0, 1)] 2 "fast_brute" (flat_model 1) 3 world0
    = (inr batch, w') /\
    exists (x : point) (w1 : World nat) (rest : list point),
      optimize_acquisition (example_ext grid_corner stay (inl LinAlgError))
        step_acquisition [(0, 1)] 2 "fast_brute" (flat_model 1) None None
        None world0 = (inr x, w1) /\
      batch = x :: rest /\
      Forall (fun p => exists g,
                In p (fst (samples_multidimensional_uniform
                             (example_ext grid_corner stay
                                (inl LinAlgError)) [(0, 1)] 1 g)))
             rest /\
      ((3 <= 1)%nat -> rest = [] /\ w' = w1).
Proof.
  destruct (random_batch_optimization_returns
              (example_ext grid_corner stay (inl LinAlgError))
              step_acquisition [(0, 1)] 2%nat "fast_brute"%string
              (flat_model 1) 3%nat
              (example_sampler_count _ _ _ _) (example_grid_count _ _ _)
              step_acquisition_contract ltac:(discriminate) ltac:(lia)
              ltac:(unfold methods; simpl; tauto) world0)
    as (batch & w' & E & _).
  exists batch, w'. split; [exact E |].
  exact (random_batch_optimization_fill nat _ _ _ _ _ _ _ _ _ _ E).
Defined.

(** ** More on the weighted clustering *)

(** X16.  [sm_batch_optimization] given no label fails with
    [UnboundLocalError] (the loop never binds [X_batch]); and when the
    matrix function fails on the kernel matrix of the first label group,
    its exception reaches the caller: unlike the surrogate-refit strategy,
    nothing is caught here. *)
Theorem sm_batch_optimization_errors :
  forall (RNG : Type) (ext : Externals RNG) (model : Model)
         (n_inbatch : nat) (w : World RNG),
    fst (sm_batch_optimization ext model n_inbatch [] w)
    = inl UnboundLocalError
    /\ forall (batch_labels : list Z) (k0 : Z) (ks : list Z) (e : exn),
         unique batch_labels = k0 :: ks ->
         sqrtm_inv ext
           (K (kern model)
              (select (map (Z.eqb k0) batch_labels) (X model)))
         = inl e ->
         fst (sm_batch_optimization ext model n_inbatch batch_labels w)
         = inl e.
Proof.
  intros RNG ext model n_inbatch w. split.
  - unfold sm_batch_optimization, bind. simpl.
    destruct (length (X model) <? n_inbatch)%nat; reflexivity.
  - intros batch_labels k0 ks e Hu He.
    unfold sm_batch_optimization. rewrite Hu.
    unfold bind at 1.
    destruct (length (X model) <? n_inbatch)%nat; simpl;
      unfold bind, lift, compute_batch_weigths, compute_w;
      rewrite He; reflexivity.
Qed.

Lemma sm_batch_optimization_errors_witness :
  fst (sm_batch_optimization singular_ext (flat_model 1) 1 [0%Z] world0)
  = inl LinAlgError.
Proof.
  apply (proj2 (sm_batch_optimization_errors nat singular_ext (flat_model 1)
                  1%nat world0) [0%Z] 0%Z [] LinAlgError);
    reflexivity.
Defined.

Lemma assign_length (mask : list bool) (a w r : list R) :
  assign mask a w = inr r -> length r = length a.
Proof.
  revert a w r.
  induction mask as [| b mask IH]; intros a w r; simpl.
  - destruct w; [| discriminate]. intros H; inversion H. reflexivity.
  - destruct b.
    + destruct a as [| u a].
      * destruct w; [| discriminate]. intros H; inversion H. reflexivity.
      * destruct w as [| v w]; [discriminate |].
        destruct (assign mask a w) as [e | r'] eqn:E; [discriminate |].
        simpl. intros H; inversion H; subst. simpl. f_equal. eauto.
    + destruct a as [| u a].
      * destruct w; [| discriminate]. intros H; inversion H. reflexivity.
      * destruct (assign mask a w) as [e | r'] eqn:E; [discriminate |].
        simpl. intros H; inversion H; subst. simpl. f_equal. eauto.
Qed.

Lemma sm_loop_result {RNG} (ext : Externals RNG) (model : Model)
    (n_inbatch : nat) (batch_labels : list Z) (ks : list Z) :
  forall (weights : list R) (X_batch : option (list point))
         (w w' : World RNG) (r : option (list point)),
    sm_loop ext model n_inbatch batch_labels ks weights X_batch w
    = (inr r, w') ->
    (ks = [] /\ r = X_batch /\ w' = w)
    \/ exists (c : list point) (wts : list R) (w1 : World RNG),
         r = Some c /\
         WKmeans ext (X model) wts n_inbatch w1 = (inr c, w') /\
         length wts = length weights.
Proof.
  induction ks as [| k ks IH]; intros weights X_batch w w' r; simpl.
  - unfold ret. intros H; inversion H; subst. left. auto.
  - unfold bind at 1. unfold lift at 1.
    destruct (compute_batch_weigths ext _ model) as [e | cw];
      [discriminate |].
    unfold bind at 1. unfold lift at 1.
    destruct (assign _ weights cw) as [e | weights'] eqn:Ea;
      [discriminate |].
    apply assign_length in Ea.
    unfold bind at 1.
    destruct (WKmeans ext (X model) weights' n_inbatch w)
      as [[e | c] w2] eqn:Ek; [discriminate |].
    intros H. right.
    destruct (IH _ _ _ _ _ H) as [(-> & -> & ->)
                                 | (c' & wts & w1 & -> & Hk & Hlen)].
    + exists c, weights', w. repeat split; auto.
    + exists c', wts, w1. repeat split; auto. congruence.
Qed.

(** X17.  Whenever [sm_batch_optimization] returns a batch, the batch is
    what the weighted k-means answered, in its last call, for the observed
    inputs [model.X], one weight per observed point and [n_inbatch]
    clusters; it is not empty. *)
Theorem sm_batch_optimization_centroids :
  forall (RNG : Type) (ext : Externals RNG) (model : Model)
         (n_inbatch : nat) (batch_labels : list Z) (w w' : World RNG)
         (batch : list point),
    sm_batch_optimization ext model n_inbatch batch_labels w
    = (inr batch, w') ->
    batch <> [] /\
    exists (weights : list R) (w1 : World RNG),
      WKmeans ext (X model) weights n_inbatch w1 = (inr batch, w') /\
      length weights = length (X model).
Proof.
  intros RNG ext model n_inbatch batch_labels w w' batch.
  unfold sm_batch_optimization. unfold bind at 1.
  match goal with
  | |- context [if ?c then _ else _] => destruct c
  end.
  - unfold print at 1. cbv beta iota. unfold bind at 1.
    match goal with
    | |- match ?m with _ => _ end = _ -> _ =>
        destruct m as [[e | r] w2] eqn:El; [discriminate |]
    end.
    apply sm_loop_result in El.
    destruct El as [(_ & -> & _) | (c & wts & w1 & -> & Hk & Hlen)];
      [discriminate |].
    unfold lift, vstack. destruct c as [| p c]; [discriminate |].
    intros H; inversion H; subst. split; [discriminate |].
    exists wts, w1. split; [exact Hk |]. now rewrite Hlen, repeat_length.
  - unfold ret at 1. cbv beta iota. unfold bind at 1.
    match goal with
    | |- match ?m with _ => _ end = _ -> _ =>
        destruct m as [[e | r] w2] eqn:El; [discriminate |]
    end.
    apply sm_loop_result in El.
    destruct El as [(_ & -> & _) | (c & wts & w1 & -> & Hk & Hlen)];
      [discriminate |].
    unfold lift, vstack. destruct c as [| p c]; [discriminate |].
    intros H; inversion H; subst. split; [discriminate |].
    exists wts, w1. split; [exact Hk |]. now rewrite Hlen, repeat_length.
Qed.

Lemma sm_batch_optimization_centroids_witness :
  [[5]; [5]] <> [] /\
  exists (weights : list R) (w1 : World nat),
    WKmeans (example_ext grid_corner stay (inl LinAlgError))
      (X (flat_model 1)) weights 2 w1
    = (inr [[5]; [5]], mkWorld 0%nat [size_message]) /\
    length weights = length (X (flat_model 1)).
Proof.
  apply (sm_batch_optimization_centroids nat
           (example_ext grid_corner stay (inl LinAlgError)) (flat_model 1)
           2%nat [0%Z] world0 (mkWorld 0%nat [size_message]) [[5]; [5]]).
  reflexivity.
Defined.

(** ** More on the refit loop and the Lipschitz estimate *)

Lemma hybrid_loop_bounded {RNG} (ext : Externals RNG) (acqu_name : string)
    (acquisition_par : R) (bounds : bounds_t) (restarts : nat)
    (method : string) (model : Model) (kernel : Kernel) (fuel : nat) :
  forall Xw Yw X_new X_batch,
    post (hybrid_loop ext acqu_name acquisition_par bounds restarts method
            model kernel fuel Xw Yw X_new X_batch)
         (fun b => exists rest,
            b = X_batch ++ rest /\ (length rest <= fuel)%nat).
Proof.
  induction fuel as [| fuel IH]; intros Xw Yw X_new X_batch; simpl.
  - apply post_ret. exists []. rewrite app_nil_r. auto.
  - intros w b w'.
    destruct (BayesianOptimization ext bounds (Xw ++ [X_new])
                (Yw ++ fst (predict model [X_new])) kernel acqu_name
                acquisition_par w) as [[e | batchBO] w1].
    + destruct e; try discriminate.
      unfold bind, print, ret. intros H; inversion H; subst.
      exists []. rewrite app_nil_r. split; [reflexivity | simpl; lia].
    + revert w1 b w'.
      change (post
        (X_new0 <- start_optimization ext batchBO bounds method restarts ;;
         hybrid_loop ext acqu_name acquisition_par bounds restarts method
           model kernel fuel (Xw ++ [X_new])
           (Yw ++ fst (predict model [X_new])) X_new0
           (X_batch ++ [X_new0]))
        (fun b => exists rest,
           b = X_batch ++ rest /\ (length rest <= S fuel)%nat)).
      eapply post_bind with (P := fun _ => True);
        [intros w0 a w0' _; exact I |].
      intros x _. eapply post_weaken; [apply IH |].
      intros b (rest & -> & Hlen). exists (x :: rest).
      rewrite <- app_assoc. split; [reflexivity | simpl; lia].
Qed.

(** X18.  Whenever [hybrid_batch_optimization] returns a batch, whatever the
    collaborators do, the batch begins with the point of the single-point
    optimizer and holds at most [max 1 n_inbatch] points; for
    [n_inbatch <= 1] it is that point alone and no surrogate is built: the
    world is the one the first optimization left. *)
Theorem hybrid_batch_optimization_shape :
  forall (RNG : Type) (ext : Externals RNG) (acqu_name : string)
         (acquisition_par : R) (acquisition : Acquisition)
         (bounds : bounds_t) (restarts : nat) (method : string)
         (model : Model) (n_inbatch : nat) (w w' : World RNG)
         (batch : list point),
    hybrid_batch_optimization ext acqu_name acquisition_par acquisition
      bounds restarts method model n_inbatch w = (inr batch, w') ->
    exists (x : point) (w1 : World RNG) (rest : list point),
      optimize_acquisition ext acquisition bounds restarts method model
        None None None w = (inr x, w1) /\
      batch = x :: rest /\
      (length batch <= Nat.max 1 n_inbatch)%nat /\
      ((n_inbatch <= 1)%nat -> rest = [] /\ w' = w1).
Proof.
  intros RNG ext acqu_name acquisition_par acquisition bounds restarts
    method model n_inbatch w w' batch.
  unfold hybrid_batch_optimization. unfold bind at 1.
  destruct (optimize_acquisition ext acquisition bounds restarts method
              model None None None w) as [[e | x] w1]; [discriminate |].
  intros H. exists x, w1.
  pose proof (hybrid_loop_bounded ext acqu_name acquisition_par bounds
                restarts method model _ (n_inbatch - 1) _ _ _ [x] _ _ _ H)
    as (rest & -> & Hlen).
  exists rest. repeat split.
  - change (length ([x] ++ rest)) with (S (length rest)). lia.
  - destruct rest; [reflexivity | simpl in Hlen; lia].
  - replace (n_inbatch - 1)%nat with 0%nat in H by lia.
    simpl in H. inversion H. reflexivity.
Qed.

Lemma hybrid_batch_optimization_shape_witness :
  exists (x : point) (w1 : World nat) (rest : list point),
    optimize_acquisition refit_ext step_acquisition [(0, 1)] 2 "fast_brute"
      (flat_model 1) None None None world0 = (inr x, w1) /\
    [[0]; [0]] = x :: rest /\
    (length [[0]; [0]] <= Nat.max 1 4)%nat /\
    ((4 <= 1)%nat -> rest = [] /\ mkWorld 0%nat [stop_message] = w1).
Proof.
  exact (hybrid_batch_optimization_shape nat refit_ext "EI"%string 0
           step_acquisition [(0, 1)] 2%nat "fast_brute"%string
           (flat_model 1) 4%nat world0 (mkWorld 0%nat [stop_message])
           [[0]; [0]] hybrid_batch_optimization_example).
Defined.

(** X19.  Whenever [estimate_L] returns, exactly one five-point draw was
    made and nothing was printed; the local search started from the sample
    whose posterior-mean gradient is the steepest, the first such sample
    when several tie (the first arg-min of [df], minus the gradient norm:
    its entry is below or equal to every entry and strictly below every
    earlier one), and the estimate is the negated minimum found from there,
    replaced by 100 when it is below 0.1. *)
Theorem estimate_L_seed :
  forall (RNG : Type) (ext : Externals RNG) (model : Model)
         (bounds : bounds_t) (alpha : R) (w w' : World RNG) (L : R),
    estimate_L ext model bounds alpha w = (inr L, w') ->
    exists (i : nat) (x0 : point) (vi : R),
      w' = mkWorld
             (snd (samples_multidimensional_uniform ext bounds 5 (rng w)))
             (stdout w) /\
      nth_error (fst (samples_multidimensional_uniform ext bounds 5 (rng w)))
                i = Some x0 /\
      nth_error (df (fst (samples_multidimensional_uniform ext bounds 5
                            (rng w))) model alpha) i = Some vi /\
      (forall j v,
          nth_error (df (fst (samples_multidimensional_uniform ext bounds 5
                                (rng w))) model alpha) j = Some v ->
          vi <= v) /\
      (forall j v,
          (j < i)%nat ->
          nth_error (df (fst (samples_multidimensional_uniform ext bounds 5
                                (rng w))) model alpha) j = Some v ->
          vi < v) /\
      L = (if Rlt_dec
                (- opt_fun (minimize ext
                              (fun p => item (df [p] model alpha)) x0
                              bounds)) 0.1
           then 100
           else - opt_fun (minimize ext
                             (fun p => item (df [p] model alpha)) x0
                             bounds)).
Proof.
  intros RNG ext model bounds alpha w w' L.
  unfold estimate_L, bind, draw, lift, ret.
  destruct (samples_multidimensional_uniform ext bounds 5 (rng w))
    as [samples g].
  destruct (argmin (df samples model alpha)) as [e | i] eqn:Ei;
    [discriminate |].
  unfold getrow.
  destruct (nth_error samples i) as [x0 |] eqn:Ex0; [| discriminate].
  intros H; inversion H; subst; clear H.
  destruct (argmin_spec _ _ Ei) as (vi & Hvi & Hmin & Hfirst).
  exists i, x0, vi. simpl. repeat split; eauto.
Qed.

Lemma estimate_L_seed_witness :
  exists (L : R) (w' : World nat),
    estimate_L (example_ext grid_corner stay (inl LinAlgError))
      (flat_model 1) [(0, 1)] 0.025 world0 = (inr L, w') /\
    exists (i : nat) (x0 : point) (vi : R),
      w' = mkWorld
             (snd (samples_multidimensional_uniform
                     (example_ext grid_corner stay (inl LinAlgError))
                     [(0, 1)] 5 (rng world0)))
             (stdout world0) /\
      nth_error (fst (samples_multidimensional_uniform
                        (example_ext grid_corner stay (inl LinAlgError))
                        [(0, 1)] 5 (rng world0))) i = Some x0 /\
      nth_error (df (fst (samples_multidimensional_uniform
                            (example_ext grid_corner stay (inl LinAlgError))
                            [(0, 1)] 5 (rng world0)))
                    (flat_model 1) 0.025) i = Some vi /\
      (forall j v,
          nth_error (df (fst (samples_multidimensional_uniform
                                (example_ext grid_corner stay
                                   (inl LinAlgError))
                                [(0, 1)] 5 (rng world0)))
                        (flat_model 1) 0.025) j = Some v ->
          vi <= v) /\
      (forall j v,
          (j < i)%nat ->
          nth_error (df (fst (samples_multidimensional_uniform
                                (example_ext grid_corner stay
                                   (inl LinAlgError))
                                [(0, 1)] 5 (rng world0)))
                        (flat_model 1) 0.025) j = Some v ->
          vi < v) /\
      L = (if Rlt_dec
                (- opt_fun (minimize
                              (example_ext grid_corner stay
                                 (inl LinAlgError))
                              (fun p => item (df [p] (flat_model 1) 0.025))
                              x0 [(0, 1)])) 0.1
           then 100
           else - opt_fun (minimize
                             (example_ext grid_corner stay
                                (inl LinAlgError))
                             (fun p => item (df [p] (flat_model 1) 0.025))
                             x0 [(0, 1)])).
Proof.
  destruct (estimate_L_returns
              (example_ext grid_corner stay (inl LinAlgError)) [(0, 1)]
              (example_sampler_count _ _ _ _) (flat_model 1) 0.025
              ltac:(intros xs; simpl; apply length_map) world0)
    as (L & w' & E & _).
  exists L, w'. split; [exact E |].
  exact (estimate_L_seed nat _ _ _ _ _ _ _ E).
Defined.
